(** * Telemetry decoder of C-Basics-for-Embedded

    A shallow embedding of the sensor-telemetry program: the input reader
    ([getBuffer], [flushBuffer], [enterData] and the string helpers), the
    record codec ([getTemperature], [getPressure], [getHumidity],
    [getFluidLevel]) and the alarm evaluator ([alarm],
    [countHumidityBits]), then the loop of [main] that ties them together
    and the binary printer [print_in_binary] of the other program.

    C integers are modelled as [Z] with every conversion written out;
    the character buffer is a [list ascii] updated by index; standard
    input is a list of characters and standard output a list of messages,
    both passed explicitly. *)

From Stdlib Require Import ZArith Lia ZifyBool Bool Ascii String DecimalString List Sorted.
From stdpp Require Import list.

Local Open Scope Z_scope.

(** ** Fixed-width integers *)

Module CInt.

(** Conversion to an unsigned type of [w] bits: reduction modulo [2^w]. *)
Definition to_unsigned (w z : Z) : Z := z mod 2 ^ w.

(** Conversion to a signed type of [w] bits (two's complement). *)
Definition to_signed (w z : Z) : Z :=
  (z + 2 ^ (w - 1)) mod 2 ^ w - 2 ^ (w - 1).

Definition uint8 : Z -> Z := to_unsigned 8.
Definition uint16 : Z -> Z := to_unsigned 16.
Definition uint32 : Z -> Z := to_unsigned 32.
Definition int16 : Z -> Z := to_signed 16.
Definition int32 : Z -> Z := to_signed 32.

Definition is_uint16 (z : Z) : Prop := 0 <= z < 2 ^ 16.
Definition is_uint32 (z : Z) : Prop := 0 <= z < 2 ^ 32.

End CInt.

Import CInt.

(** ** Constants of the program *)

Definition TEMPERATURE_BITS_MASK : Z := 0xff.
Definition PRESSURE_BITS_SHIFT : Z := 8.
Definition PRESSURE_BITS_MASK : Z := 0x7f.
Definition HUMIDITY_BITS_SHIFT : Z := 15.
Definition HUMIDITY_BITS_MASK : Z := 0xf.
Definition FLUID_LEVEL_BITS_SHIFT : Z := 19.
Definition MAX_HEX_DIGITS : nat := 8.
Definition HEX_INPUT_BUFFER_SIZE : nat := 9.
Definition HUMIDITY_BITS : Z := 4.

(** ** Record codec *)

(** [int16_t getTemperature(uint32_t tempData, uint8_t maskForTemp)]:
    the masked word is cast to [short int], 20 is subtracted in [int],
    and the result is converted to the return type. *)
Definition getTemperature (tempData maskForTemp : Z) : Z :=
  let tempData := uint32 (Z.land tempData maskForTemp) in
  int16 (int32 (int16 tempData - 20)).

(** [uint16_t getPressure(uint32_t, uint8_t maskForPressure, uint8_t shiftForPressure)] *)
Definition getPressure (tempData maskForPressure shiftForPressure : Z) : Z :=
  let tempData := uint32 (Z.shiftr tempData shiftForPressure) in
  let tempData := uint32 (Z.land tempData maskForPressure) in
  uint16 (int32 (int32 tempData + 1010)).

(** [uint8_t getHumidity(uint32_t, uint8_t maskForHumidity, uint8_t shiftForHumidity)] *)
Definition getHumidity (tempData maskForHumidity shiftForHumidity : Z) : Z :=
  let tempData := uint32 (Z.shiftr tempData shiftForHumidity) in
  let tempData := uint32 (Z.land tempData maskForHumidity) in
  uint8 tempData.

(** [uint16_t getFluidLevel(uint32_t, uint8_t shiftForFluidLevel)]: no mask,
    the shifted word is truncated to 16 bits. *)
Definition getFluidLevel (tempData shiftForFluidLevel : Z) : Z :=
  let tempData := uint32 (Z.shiftr tempData shiftForFluidLevel) in
  uint16 tempData.

(** The four values [main] computes from [receivedData]. *)
Record DecodedReading : Set := mkReading {
  temperature : Z;   (* int16_t *)
  pressure : Z;      (* uint16_t *)
  humidity : Z;      (* uint8_t *)
  fluidLevel : Z     (* uint16_t *)
}.

(** The decode step of the body of [main]'s loop, with the constants
    [main] passes. *)
Definition decode (receivedData : Z) : DecodedReading :=
  {| temperature := getTemperature receivedData (uint8 TEMPERATURE_BITS_MASK);
     pressure := getPressure receivedData (uint8 PRESSURE_BITS_MASK)
                   (uint8 PRESSURE_BITS_SHIFT);
     humidity := getHumidity receivedData (uint8 HUMIDITY_BITS_MASK)
                   (uint8 HUMIDITY_BITS_SHIFT);
     fluidLevel := getFluidLevel receivedData (uint8 FLUID_LEVEL_BITS_SHIFT) |}.

(** ** Packing (the inverse of the codec)

    Builds a raw word from chosen field values placed at their bit
    offsets; used to state the round trip. *)
Definition pack (temperature_raw pressure_raw humidity_raw fluid_raw : Z) : Z :=
  Z.lor (Z.lor (Z.lor temperature_raw
                      (Z.shiftl pressure_raw PRESSURE_BITS_SHIFT))
               (Z.shiftl humidity_raw HUMIDITY_BITS_SHIFT))
        (Z.shiftl fluid_raw FLUID_LEVEL_BITS_SHIFT).

(** The bits of the word each getter looks at. [getFluidLevel] has no mask
    of its own: it keeps whatever of the 32-bit word lies at or above its
    shift. *)
Definition temperature_field : Z := TEMPERATURE_BITS_MASK.
Definition pressure_field : Z := Z.shiftl PRESSURE_BITS_MASK PRESSURE_BITS_SHIFT.
Definition humidity_field : Z := Z.shiftl HUMIDITY_BITS_MASK HUMIDITY_BITS_SHIFT.
Definition fluid_field : Z :=
  Z.shiftl (Z.shiftr 0xFFFFFFFF FLUID_LEVEL_BITS_SHIFT) FLUID_LEVEL_BITS_SHIFT.

(** ** Standard output *)

Inductive alarm_kind : Set :=
| TemperatureLow | TemperatureHigh
| PressureLow | PressureHigh
| HumidityOutOfRange
| TankEmpty | TankOverflow.

(** One constructor per [printf] of [enterData] and [alarm]; an alarm line
    carries the values its format string prints. *)
Inductive message : Set :=
| Prompt          (* "Enter a hexadecimal number ..." *)
| EmptyData       (* "You have entered empty data! Try again" *)
| Closing         (* "Closiong the program..." *)
| WrongData       (* "You have entered wrong data! Use only 0-9 and A-F" *)
| Alarm (k : alarm_kind) (values : list Z).

Definition printf (m : message) (stdout : list message) : list message :=
  stdout ++ [m].

Definition alarm_kind_eqb (a b : alarm_kind) : bool :=
  match a, b with
  | TemperatureLow, TemperatureLow | TemperatureHigh, TemperatureHigh
  | PressureLow, PressureLow | PressureHigh, PressureHigh
  | HumidityOutOfRange, HumidityOutOfRange
  | TankEmpty, TankEmpty | TankOverflow, TankOverflow => true
  | _, _ => false
  end.

(** An alarm of kind [k] is among the printed lines. *)
Definition raised (k : alarm_kind) (stdout : list message) : bool :=
  existsb (fun m => match m with
                    | Alarm k' _ => alarm_kind_eqb k k'
                    | _ => false
                    end) stdout.

(** The field an alarm line reports on, numbered in the order of the
    arguments of [alarm]. *)
Definition field_rank (m : message) : nat :=
  match m with
  | Alarm (TemperatureLow | TemperatureHigh) _ => 1
  | Alarm (PressureLow | PressureHigh) _ => 2
  | Alarm HumidityOutOfRange _ => 3
  | Alarm (TankEmpty | TankOverflow) _ => 4
  | _ => 0
  end%nat.

(** ** Alarm evaluator *)

(** The loop of [countHumidityBits]: [n] iterations are left, [i] is the
    loop variable, [counter] the [uint8_t] counter. *)
Fixpoint countHumidityBits_loop (n : nat) (i bitsToBeCounted counter : Z) : Z :=
  match n with
  | O => counter
  | S n' =>
    let temp := uint8 (Z.land (Z.shiftr bitsToBeCounted i) 0x1) in
    let counter := if temp =? 0 then counter else uint8 (counter + 1) in
    countHumidityBits_loop n' (i + 1) bitsToBeCounted counter
  end.

(** The value of [counter] when the loop of [countHumidityBits] ends. *)
Definition countHumidityBits_counter (bitsToBeCounted checkedBits : Z) : Z :=
  countHumidityBits_loop (Z.to_nat checkedBits) 0 bitsToBeCounted 0.

(** [int countHumidityBits(uint8_t bitsToBeCounted, uint8_t checkedBits)]
    returns the comparison [counter > 2] as an [int]. *)
Definition countHumidityBits (bitsToBeCounted checkedBits : Z) : Z :=
  if countHumidityBits_counter bitsToBeCounted checkedBits >? 2 then 1 else 0.

(** [void alarm(int16_t, uint16_t, uint8_t, uint16_t)], threading standard
    output. *)
Definition alarm (temperatureData pressureData humidityData fluidLevelData : Z)
    (stdout : list message) : list message :=
  let stdout :=
    if temperatureData <=? 4
    then printf (Alarm TemperatureLow [temperatureData]) stdout
    else if temperatureData >? 100
    then printf (Alarm TemperatureHigh [temperatureData]) stdout
    else stdout in
  let stdout :=
    if pressureData <? 1013
    then printf (Alarm PressureLow [pressureData]) stdout
    else if pressureData >? 1135
    then printf (Alarm PressureHigh [pressureData]) stdout
    else stdout in
  let stdout :=
    if negb (countHumidityBits humidityData (uint8 HUMIDITY_BITS) =? 0)
    then printf (Alarm HumidityOutOfRange []) stdout
    else stdout in
  let stdout :=
    if fluidLevelData <=? 0
    then printf (Alarm TankEmpty []) stdout
    else if fluidLevelData >? 8000
    then printf (Alarm TankOverflow [fluidLevelData]) stdout
    else stdout in
  stdout.

(** [alarm] as [main] calls it on the decoded values. *)
Definition alarm_of (r : DecodedReading) (stdout : list message) : list message :=
  alarm (temperature r) (pressure r) (humidity r) (fluidLevel r) stdout.

(** ** The evaluator as the specification words it

    Every condition is checked on its own and contributes its alarm; the
    report is the concatenation in field order. *)
Module Spec.

Definition when (c : bool) (m : message) : list message :=
  if c then [m] else [].

(** Number of set bits among bits [i], ..., [i + n - 1] of [h]. *)
Fixpoint count_bits (n : nat) (i h : Z) : Z :=
  match n with
  | O => 0
  | S n' => Z.b2z (Z.testbit h i) + count_bits n' (i + 1) h
  end.

(** Set bits among the low four bits. *)
Definition low4_set_bits (h : Z) : Z := count_bits 4 0 h.

Definition temperature_alarms (t : Z) : list message :=
  when (t <=? 4) (Alarm TemperatureLow [t]) ++
  when (t >? 100) (Alarm TemperatureHigh [t]).

Definition pressure_alarms (p : Z) : list message :=
  when (p <? 1013) (Alarm PressureLow [p]) ++
  when (p >? 1135) (Alarm PressureHigh [p]).

Definition humidity_alarms (h : Z) : list message :=
  when (low4_set_bits h >? 2) (Alarm HumidityOutOfRange []).

Definition fluid_alarms (f : Z) : list message :=
  when (f <=? 0) (Alarm TankEmpty []) ++
  when (f >? 8000) (Alarm TankOverflow [f]).

Definition evaluate (r : DecodedReading) : list message :=
  temperature_alarms (temperature r) ++ pressure_alarms (pressure r) ++
  humidity_alarms (humidity r) ++ fluid_alarms (fluidLevel r).

(** The number of set bits of a non-negative integer. *)
Fixpoint popcount_pos (p : positive) : Z :=
  match p with
  | xH => 1
  | xO q => popcount_pos q
  | xI q => 1 + popcount_pos q
  end.

Definition popcount (z : Z) : Z :=
  match z with
  | Zpos p => popcount_pos p
  | _ => 0
  end.

End Spec.

(** ** Characters

    A [char] is an [ascii]; comparisons use its code 0..255. Bytes above
    127 are neither digits nor letters whichever signedness [char] has, so
    the checks below do not depend on it. *)

Definition NUL : ascii := "000"%char.
Definition LF : ascii := "010"%char.

(** [(char)EOF]: what [tempChar = getchar()] stores at end of input. *)
Definition EOF_char : ascii := "255"%char.

Definition code (c : ascii) : Z := Z.of_N (N_of_ascii c).

(** [isdigit] and [toupper] of the C locale. *)
Definition isdigit (c : ascii) : bool :=
  (code "0" <=? code c) && (code c <=? code "9").

Definition toupper (c : ascii) : ascii :=
  if (code "a" <=? code c) && (code c <=? code "z")
  then ascii_of_N (N_of_ascii c - 32)
  else c.

(** The string literal ["END"] with its terminator. *)
Definition END_literal : list ascii := ["E"; "N"; "D"; NUL]%char.

(** [strcmp]: running off a list reads as the terminator. *)
Fixpoint strcmp (a b : list ascii) : Z :=
  match a, b with
  | x :: a', y :: b' =>
    if Ascii.eqb x y
    then (if Ascii.eqb x NUL then 0 else strcmp a' b')
    else code x - code y
  | [], y :: _ => code NUL - code y
  | x :: _, [] => code x - code NUL
  | [], [] => 0
  end.

(** [data[i]]; the buffers of the program are read inside their bounds, a
    read outside yields the terminator here. *)
Definition char_at (data : list ascii) (i : nat) : ascii :=
  default NUL (data !! i).

(** ** Standard input and the line reader *)

(** [getchar()]: the next character, or [None] for [EOF] once the input is
    used up. *)
Definition getchar (stdin : list ascii) : option ascii * list ascii :=
  match stdin with
  | [] => (None, [])
  | c :: stdin' => (Some c, stdin')
  end.

Definition char_of_int (r : option ascii) : ascii :=
  match r with
  | Some c => c
  | None => EOF_char
  end.

(** [void flushBuffer(void)]: [while (getchar() != '\n');]. At end of input
    [getchar] keeps returning [EOF], the loop never ends: [None]. *)
Fixpoint flushBuffer (stdin : list ascii) : option (list ascii) :=
  match stdin with
  | [] => None
  | c :: stdin' => if Ascii.eqb c LF then Some stdin' else flushBuffer stdin'
  end.

(** The loop of [getBuffer] with [n] iterations left and loop variable
    [i]. The newline case leaves the loop ([break]). *)
Fixpoint getBuffer_from (n i table_size : nat) (input stdin : list ascii)
  : option (list ascii * list ascii) :=
  match n with
  | O => Some (input, stdin)
  | S n' =>
    let (r, stdin) := getchar stdin in
    let tempChar := char_of_int r in
    if Ascii.eqb tempChar LF then Some (<[i := NUL]> input, stdin)
    else if (table_size - 1 <=? i)%nat then
      match flushBuffer stdin with
      | None => None
      | Some stdin =>
        getBuffer_from n' (S i) table_size
                       (<[(table_size - 1)%nat := NUL]> input) stdin
      end
    else getBuffer_from n' (S i) table_size (<[i := tempChar]> input) stdin
  end.

(** [void getBuffer(char* input, uint8_t table_size)] *)
Definition getBuffer (input : list ascii) (table_size : nat) (stdin : list ascii)
  : option (list ascii * list ascii) :=
  getBuffer_from table_size 0 table_size input stdin.

(** ** String helpers *)

Fixpoint dataToUpperCase_from (n i : nat) (dataToBeTranformed : list ascii)
  : list ascii :=
  match n with
  | O => dataToBeTranformed
  | S n' =>
    let c := char_at dataToBeTranformed i in
    if Ascii.eqb c NUL then dataToBeTranformed
    else dataToUpperCase_from n' (S i) (<[i := toupper c]> dataToBeTranformed)
  end.

(** [void dataToUpperCase(char*, uint8_t max_size)] *)
Definition dataToUpperCase (dataToBeTranformed : list ascii) (max_size : nat)
  : list ascii :=
  dataToUpperCase_from max_size 0 dataToBeTranformed.

Fixpoint flushData_from (n i : nat) (dataToBeFlashed : list ascii) : list ascii :=
  match n with
  | O => dataToBeFlashed
  | S n' =>
    if Ascii.eqb (char_at dataToBeFlashed i) NUL then dataToBeFlashed
    else flushData_from n' (S i) (<[i := NUL]> dataToBeFlashed)
  end.

(** [void flushData(char*, uint8_t size_of_table)] *)
Definition flushData (dataToBeFlashed : list ascii) (size_of_table : nat)
  : list ascii :=
  flushData_from size_of_table 0 dataToBeFlashed.

(** [bool checkIfEnd(char* checkIfDataIsEnd)] *)
Definition checkIfEnd (checkIfDataIsEnd : list ascii) : bool :=
  if strcmp checkIfDataIsEnd END_literal =? 0 then true else false.

Fixpoint checkEnteredData_from (n i : nat) (dataToBeChecked : list ascii) : bool :=
  match n with
  | O => true
  | S n' =>
    let c := char_at dataToBeChecked i in
    if Ascii.eqb c NUL then true
    else if negb (isdigit c) then
      if (code c <? code "A") || (code c >? code "F") then false
      else checkEnteredData_from n' (S i) dataToBeChecked
    else checkEnteredData_from n' (S i) dataToBeChecked
  end.

(** [bool checkEnteredData(char*, uint8_t max_size)] *)
Definition checkEnteredData (dataToBeChecked : list ascii) (max_size : nat) : bool :=
  checkEnteredData_from max_size 0 dataToBeChecked.

(** ** The input loop *)

Record io : Set := mkIO {
  pending : list ascii;      (* what is left of standard input *)
  printed : list message     (* what was written to standard output *)
}.

(** How one pass through the body of the [do ... while (true)] of
    [enterData] ends. *)
Inductive step : Set :=
| Continue (enteredData : list ascii) (w : io)   (* next pass *)
| Break (enteredData : list ascii) (w : io)      (* [break]: back to [main] *)
| Exit (status : Z) (w : io)                     (* [exit(status)] *)
| Hang.                                          (* [flushBuffer] never returns *)

Definition enterData_body (enteredData : list ascii)
    (max_size size_of_whole_table : nat) (w : io) : step :=
  let stdout := printf Prompt (printed w) in
  match getBuffer enteredData size_of_whole_table (pending w) with
  | None => Hang
  | Some (enteredData, stdin) =>
    let enteredData :=
      if negb (Ascii.eqb (char_at enteredData 0) NUL)
      then dataToUpperCase enteredData max_size
      else enteredData in
    if Ascii.eqb (char_at enteredData 0) NUL then
      Continue (flushData enteredData size_of_whole_table)
               (mkIO stdin (printf EmptyData stdout))
    else if checkIfEnd enteredData then
      Exit 0 (mkIO stdin (printf Closing stdout))
    else if negb (checkEnteredData enteredData max_size) then
      Continue (flushData enteredData size_of_whole_table)
               (mkIO stdin (printf WrongData stdout))
    else Break enteredData (mkIO stdin stdout)
  end.

Inductive result : Set :=
| Returned (enteredData : list ascii) (w : io)
| Exited (status : Z) (w : io)
| Diverged
| OutOfFuel.

(** [void enterData(char*, uint8_t max_size, uint8_t size_of_whole_table)]:
    the loop runs until a pass breaks, exits or hangs; [fuel] bounds the
    number of passes. *)
Fixpoint enterData (fuel : nat) (enteredData : list ascii)
    (max_size size_of_whole_table : nat) (w : io) : result :=
  match fuel with
  | O => OutOfFuel
  | S fuel' =>
    match enterData_body enteredData max_size size_of_whole_table w with
    | Continue enteredData w' =>
      enterData fuel' enteredData max_size size_of_whole_table w'
    | Break enteredData w' => Returned enteredData w'
    | Exit status w' => Exited status w'
    | Hang => Diverged
    end
  end.

(** ** Lines and strings as the specification speaks of them *)

(** The C string a buffer holds: the characters before the first
    terminator. *)
Fixpoint cstring (data : list ascii) : list ascii :=
  match data with
  | [] => []
  | c :: data' => if Ascii.eqb c NUL then [] else c :: cstring data'
  end.

(** A hexadecimal digit [0-9], [A-F]. *)
Definition hex_digit (c : ascii) : bool :=
  existsb (Ascii.eqb c)
    ["0"; "1"; "2"; "3"; "4"; "5"; "6"; "7"; "8"; "9";
     "A"; "B"; "C"; "D"; "E"; "F"]%char.

(** The token ["END"]. *)
Definition END_token : list ascii := ["E"; "N"; "D"]%char.

(** What is kept of a line: its first [MAX_HEX_DIGITS] characters, in
    upper case. *)
Definition normalized (line : list ascii) : list ascii :=
  map toupper (take MAX_HEX_DIGITS line).

(** The string the buffer holds once a line is read: the first
    [MAX_HEX_DIGITS] characters of the line, ending before the first
    terminator if one is among them. *)
Definition kept (line : list ascii) : list ascii :=
  cstring (take MAX_HEX_DIGITS line).

(** ** The main loop of the telemetry program *)

(** What [main] prints: the lines of [enterData] and [alarm], and its own
    lines with the values they show. *)
Inductive report_line : Set :=
| Said (m : message)
| ReceivedData (shown : list ascii)       (* "Received data = %s" *)
| DataAfterConvertion (value : Z)         (* "Data after convertion = %x = %u" *)
| TemperatureIs (value : Z)               (* "Temperature = %x = %i" *)
| PressureIs (value : Z)                  (* "Pressure = %x = %u" *)
| HumidityIs (value : Z)                  (* "Humidity = %x = %u" *)
| FluidLevelIs (value : Z).               (* "Fluid level = %x = %u" *)

(** [main] never leaves its [while (1)]: the program ends through the
    [exit] of [enterData], or not at all. *)
Inductive main_result : Set :=
| MainExited (status : Z) (stdin : list ascii) (stdout : list report_line)
| MainDiverged
| MainOutOfFuel.

Section Main.

(** [strtoul(nptr, NULL, base)] of the C library. *)
Variable strtoul : list ascii -> Z -> Z.

(** [uint32_t convertToNumber(char* stringToBeConverted)] *)
Definition convertToNumber (stringToBeConverted : list ascii) : Z :=
  uint32 (strtoul stringToBeConverted 16).

(** The lines one pass of [main] prints after [enterData] has returned:
    the calls from [printf("Received data ...")] to [alarm]. [alarm] only
    appends to standard output, so its lines are taken from a run on the
    empty output. *)
Definition main_report (dataString : list ascii) : list report_line :=
  let stdout := [ReceivedData (cstring dataString)] in
  let receivedData := convertToNumber dataString in
  let stdout := stdout ++ [DataAfterConvertion receivedData] in
  let temperature := getTemperature receivedData (uint8 TEMPERATURE_BITS_MASK) in
  let stdout := stdout ++ [TemperatureIs temperature] in
  let pressure := getPressure receivedData (uint8 PRESSURE_BITS_MASK)
                              (uint8 PRESSURE_BITS_SHIFT) in
  let stdout := stdout ++ [PressureIs pressure] in
  let humidity := getHumidity receivedData (uint8 HUMIDITY_BITS_MASK)
                              (uint8 HUMIDITY_BITS_SHIFT) in
  let stdout := stdout ++ [HumidityIs humidity] in
  let fluidLevel := getFluidLevel receivedData (uint8 FLUID_LEVEL_BITS_SHIFT) in
  let stdout := stdout ++ [FluidLevelIs fluidLevel] in
  stdout ++ map Said (alarm temperature pressure humidity fluidLevel []).

(** The [while (1)] of [main]; [fuel] bounds its passes and those of each
    call of [enterData]. The lines of [enterData], which only appends to
    standard output, are taken from a run on the empty output. *)
Fixpoint main_loop (fuel : nat) (dataString stdin : list ascii)
    (stdout : list report_line) : main_result :=
  match fuel with
  | O => MainOutOfFuel
  | S fuel' =>
    match enterData fuel dataString MAX_HEX_DIGITS HEX_INPUT_BUFFER_SIZE
                    (mkIO stdin []) with
    | Returned dataString w =>
      main_loop fuel' dataString (pending w)
                (stdout ++ map Said (printed w) ++ main_report dataString)
    | Exited status w =>
      MainExited status (pending w) (stdout ++ map Said (printed w))
    | Diverged => MainDiverged
    | OutOfFuel => MainOutOfFuel
    end
  end.

(** [int main(void)] with [dataString] initialised to zeros. *)
Definition main (fuel : nat) (stdin : list ascii) : main_result :=
  main_loop fuel (repeat NUL HEX_INPUT_BUFFER_SIZE) stdin [].

End Main.

(** ** The binary printer (the other program of the file) *)

Definition LAST_BIT : Z := 0x1.
Definition BITS_IN_BYTE : Z := 8.

(** [typedef uint16_t selectedNumberFormat;] and its [sizeof]. *)
Definition sizeof_selectedNumberFormat : Z := 2.

(** [printf("%d", v)] and [putchar(c)] on a standard output of
    characters. *)
Definition printf_d (v : Z) (stdout : list ascii) : list ascii :=
  stdout ++ String.list_ascii_of_string (NilZero.string_of_int (Z.to_int v)).

Definition putchar (c : ascii) (stdout : list ascii) : list ascii :=
  stdout ++ [c].

(** The loop of [print_in_binary]: [n] iterations are left, [i] is the loop
    variable. *)
Fixpoint print_in_binary_loop (n : nat) (i totalBits number : Z)
    (stdout : list ascii) : list ascii :=
  match n with
  | O => stdout
  | S n' =>
    print_in_binary_loop n' (i + 1) totalBits number
      (printf_d (Z.land (Z.shiftr number (totalBits - 1 - i)) LAST_BIT) stdout)
  end.

(** [void print_in_binary(selectedNumberFormat number)] *)
Definition print_in_binary (number : Z) (stdout : list ascii) : list ascii :=
  let totalBits := int32 (sizeof_selectedNumberFormat * BITS_IN_BYTE) in
  let stdout :=
    print_in_binary_loop (Z.to_nat totalBits) 0 totalBits number stdout in
  putchar LF stdout.

(** ** Notions used to state what the rest of the code does *)

(** The number a string of binary digits reads as, most significant digit
    first. *)
Definition binary_value (digits : list ascii) : Z :=
  fold_left (fun acc c => 2 * acc + (if Ascii.eqb c "1" then 1 else 0)) digits 0.

(** The number a string of digits [0-9], [A-F] reads as in base 16. *)
Definition hex_digit_value (c : ascii) : Z :=
  if isdigit c then code c - code "0" else code c - code "A" + 10.

Definition hex_value (digits : list ascii) : Z :=
  fold_left (fun acc c => 16 * acc + hex_digit_value c) digits 0.

(** A [strtoul] that reads the string in the buffer as hexadecimal digits;
    it agrees with the C library on strings made of such digits. *)
Definition strtoul_hex (nptr : list ascii) (base : Z) : Z :=
  hex_value (cstring nptr).

(** The number of newlines left on standard input. *)
Fixpoint newlines (stdin : list ascii) : nat :=
  match stdin with
  | [] => 0
  | c :: stdin' =>
    if Ascii.eqb c LF then S (newlines stdin') else newlines stdin'
  end.

(** The characters of some lines as they arrive on standard input. *)
Definition typed (lines : list (list ascii)) : list ascii :=
  flat_map (fun line => line ++ [LF]) lines.

(** A line of text: no newline and no terminator inside. *)
Definition text_line (line : list ascii) : Prop :=
  ~ In LF line /\ ~ In NUL line.

(** A line the input loop answers with a message and a new prompt: empty,
    or with a character that is not a hexadecimal digit among those kept,
    and not END. *)
Definition rejected (line : list ascii) : Prop :=
  line = [] \/
  (forallb hex_digit (normalized line) = false /\ map toupper line <> END_token).

(** A line the input loop hands to [main]. *)
Definition accepted (line : list ascii) : Prop :=
  line <> [] /\ forallb hex_digit (normalized line) = true.

(** What the input loop prints for a rejected line. *)
Definition rejection (line : list ascii) : list message :=
  match line with
  | [] => [Prompt; EmptyData]
  | _ :: _ => [Prompt; WrongData]
  end.

(** What the program prints for an accepted line, the prompt included. *)
Definition report (line : list ascii) : list report_line :=
  let r := decode (hex_value (normalized line)) in
  [Said Prompt; ReceivedData (normalized line);
   DataAfterConvertion (hex_value (normalized line));
   TemperatureIs (temperature r); PressureIs (pressure r);
   HumidityIs (humidity r); FluidLevelIs (fluidLevel r)]
  ++ map Said (Spec.evaluate r).

(** Whether the input loop hands a line to [main]. *)
Definition hex_line (line : list ascii) : bool :=
  match line with
  | [] => false
  | _ :: _ => forallb hex_digit (normalized line)
  end.

(** What the program prints for a line that is not END. *)
Definition respond (line : list ascii) : list report_line :=
  if hex_line line then report line else map Said (rejection line).

(** What the C library guarantees of [strtoul] in base 16 on a string of 1
    to 8 digits [0-9], [A-F]: the number the digits read as (no prefix, no
    sign, no overflow is involved). *)
Definition parses_hex (strtoul : list ascii -> Z -> Z) : Prop :=
  forall nptr,
    (1 <= length (cstring nptr) <= 8)%nat ->
    forallb hex_digit (cstring nptr) = true ->
    strtoul nptr 16 = hex_value (cstring nptr).

(** The binary digits of [x] for bits [n - 1] down to 0, as characters. *)
Fixpoint bits_msb (n : nat) (x : Z) : list ascii :=
  match n with
  | O => []
  | S n' => (if Z.testbit x (Z.of_nat n') then "1" else "0")%char :: bits_msb n' x
  end.

(** An outcome of the input loop with [before] put in front of what it
    printed. *)
Definition printed_after (before : list message) (r : result) : result :=
  match r with
  | Returned data w => Returned data (mkIO (pending w) (before ++ printed w))
  | Exited status w => Exited status (mkIO (pending w) (before ++ printed w))
  | Diverged => Diverged
  | OutOfFuel => OutOfFuel
  end.

(** * Proofs *)

(** ** Integer conversions on values in range *)

Lemma to_unsigned_small w z : 0 <= z < 2 ^ w -> to_unsigned w z = z.
Proof. intros H. unfold to_unsigned. now apply Z.mod_small. Qed.

Lemma to_signed_small w z :
  0 < w -> - 2 ^ (w - 1) <= z < 2 ^ (w - 1) -> to_signed w z = z.
Proof.
  intros Hw H. unfold to_signed.
  replace (2 ^ w) with (2 * 2 ^ (w - 1)).
  - rewrite Z.mod_small by lia. lia.
  - rewrite <- Z.pow_succ_r by lia. f_equal. lia.
Qed.

Lemma uint8_small z : 0 <= z < 256 -> uint8 z = z.
Proof. exact (to_unsigned_small 8 z). Qed.

Lemma uint16_small z : 0 <= z < 65536 -> uint16 z = z.
Proof. exact (to_unsigned_small 16 z). Qed.

Lemma uint32_small z : 0 <= z < 4294967296 -> uint32 z = z.
Proof. exact (to_unsigned_small 32 z). Qed.

Lemma int16_small z : -32768 <= z < 32768 -> int16 z = z.
Proof. intros H. exact (to_signed_small 16 z ltac:(lia) H). Qed.

Lemma int32_small z : -2147483648 <= z < 2147483648 -> int32 z = z.
Proof. intros H. exact (to_signed_small 32 z ltac:(lia) H). Qed.

(** ** Codec: field formulas *)

Section CodecFacts.

Variable raw : Z.
Hypothesis raw_range : is_uint32 raw.

Lemma field_mod (s w : Z) :
  0 <= s -> 0 <= w ->
  Z.land (Z.shiftr raw s) (Z.ones w) = (raw / 2 ^ s) mod 2 ^ w.
Proof.
  intros Hs Hw. rewrite Z.land_ones by exact Hw.
  now rewrite Z.shiftr_div_pow2 by exact Hs.
Qed.

Lemma field_range (s w : Z) :
  0 <= s -> 0 <= w -> 0 <= Z.land (Z.shiftr raw s) (Z.ones w) < 2 ^ w.
Proof.
  intros Hs Hw. rewrite field_mod by assumption.
  apply Z.mod_pos_bound. apply Z.pow_pos_nonneg; lia.
Qed.

Lemma shiftr_range (s : Z) :
  0 <= s -> 0 <= Z.shiftr raw s < 2 ^ 32.
Proof.
  intros Hs. rewrite Z.shiftr_div_pow2 by exact Hs.
  assert (Hp : 0 < 2 ^ s) by (apply Z.pow_pos_nonneg; lia).
  destruct raw_range as [H0 H1]. split.
  - apply Z.div_pos; lia.
  - apply Z.le_lt_trans with raw; [| exact H1].
    apply Z.div_le_upper_bound; nia.
Qed.

Lemma getTemperature_eq :
  getTemperature raw (uint8 TEMPERATURE_BITS_MASK) = raw mod 256 - 20.
Proof.
  unfold getTemperature.
  change (uint8 TEMPERATURE_BITS_MASK) with (Z.ones 8).
  rewrite Z.land_ones by lia. change (2 ^ 8) with 256.
  pose proof (Z.mod_pos_bound raw 256 ltac:(lia)) as Hb.
  rewrite uint32_small by lia. rewrite (int16_small (raw mod 256)) by lia.
  rewrite int32_small by lia. apply int16_small. lia.
Qed.

Lemma getPressure_eq :
  getPressure raw (uint8 PRESSURE_BITS_MASK) (uint8 PRESSURE_BITS_SHIFT)
  = (raw / 2 ^ 8) mod 2 ^ 7 + 1010.
Proof.
  unfold getPressure.
  change (uint8 PRESSURE_BITS_MASK) with (Z.ones 7).
  change (uint8 PRESSURE_BITS_SHIFT) with 8.
  pose proof (shiftr_range 8 ltac:(lia)) as Hs.
  rewrite (uint32_small (Z.shiftr raw 8)) by (change (2 ^ 32) with 4294967296 in Hs; lia).
  pose proof (field_range 8 7 ltac:(lia) ltac:(lia)) as Hf.
  change (2 ^ 7) with 128 in Hf.
  rewrite uint32_small by lia. rewrite (int32_small (Z.land _ _)) by lia.
  rewrite int32_small by lia. rewrite uint16_small by lia.
  now rewrite field_mod by lia.
Qed.

Lemma getHumidity_eq :
  getHumidity raw (uint8 HUMIDITY_BITS_MASK) (uint8 HUMIDITY_BITS_SHIFT)
  = (raw / 2 ^ 15) mod 2 ^ 4.
Proof.
  unfold getHumidity.
  change (uint8 HUMIDITY_BITS_MASK) with (Z.ones 4).
  change (uint8 HUMIDITY_BITS_SHIFT) with 15.
  pose proof (shiftr_range 15 ltac:(lia)) as Hs.
  rewrite (uint32_small (Z.shiftr raw 15)) by (change (2 ^ 32) with 4294967296 in Hs; lia).
  pose proof (field_range 15 4 ltac:(lia) ltac:(lia)) as Hf.
  change (2 ^ 4) with 16 in Hf.
  rewrite uint32_small by lia. rewrite uint8_small by lia.
  now rewrite field_mod by lia.
Qed.

Lemma fluid_bound : 0 <= raw / 2 ^ 19 < 2 ^ 13.
Proof.
  destruct raw_range as [H0 H1]. change (2 ^ 32) with (2 ^ 19 * 2 ^ 13) in H1.
  split.
  - apply Z.div_pos; lia.
  - apply Z.div_lt_upper_bound; lia.
Qed.

Lemma getFluidLevel_eq :
  getFluidLevel raw (uint8 FLUID_LEVEL_BITS_SHIFT) = raw / 2 ^ 19.
Proof.
  unfold getFluidLevel.
  change (uint8 FLUID_LEVEL_BITS_SHIFT) with 19.
  rewrite Z.shiftr_div_pow2 by lia.
  pose proof fluid_bound as Hb. change (2 ^ 13) with 8192 in Hb.
  rewrite uint32_small by lia. apply uint16_small. lia.
Qed.

End CodecFacts.

(** The decoded reading in mask-and-shift form. *)
Lemma decode_masked (raw : Z) :
  is_uint32 raw ->
  decode raw
  = mkReading (Z.land raw 0xFF - 20) (Z.land (Z.shiftr raw 8) 0x7F + 1010)
              (Z.land (Z.shiftr raw 15) 0xF) (Z.land (Z.shiftr raw 19) 0x1FFF).
Proof.
  intros Hraw. unfold decode.
  rewrite getTemperature_eq, getPressure_eq, getHumidity_eq, getFluidLevel_eq
    by exact Hraw.
  pose proof (Z.land_ones raw 8 ltac:(lia)) as Et.
  pose proof (field_mod raw 8 7 ltac:(lia) ltac:(lia)) as Ep.
  pose proof (field_mod raw 15 4 ltac:(lia) ltac:(lia)) as Eh.
  pose proof (field_mod raw 19 13 ltac:(lia) ltac:(lia)) as Ef.
  change (Z.ones 8) with 0xFF in Et. change (2 ^ 8) with 256 in Et.
  change (Z.ones 7) with 0x7F in Ep. change (Z.ones 4) with 0xF in Eh.
  change (Z.ones 13) with 0x1FFF in Ef.
  rewrite Et, Ep, Eh, Ef. f_equal.
  symmetry. apply Z.mod_small. now apply fluid_bound.
Qed.

Lemma low_byte_range (raw : Z) : 0 <= Z.land raw 0xFF < 256.
Proof.
  change 0xFF with (Z.ones 8). rewrite Z.land_ones by lia.
  apply Z.mod_pos_bound. lia.
Qed.

(** C1. For every 32-bit raw value the decode step yields
    temperature = int16(raw & 0xFF) - 20, which lies in -20..235,
    pressure = ((raw >> 8) & 0x7F) + 1010, humidity = (raw >> 15) & 0xF
    and fluidLevel = (raw >> 19) & 0x1FFF. *)
Theorem decode_formulas (raw : Z) :
  is_uint32 raw ->
  temperature (decode raw) = int16 (Z.land raw 0xFF) - 20 /\
  -20 <= temperature (decode raw) <= 235 /\
  pressure (decode raw) = Z.land (Z.shiftr raw 8) 0x7F + 1010 /\
  humidity (decode raw) = Z.land (Z.shiftr raw 15) 0xF /\
  fluidLevel (decode raw) = Z.land (Z.shiftr raw 19) 0x1FFF.
Proof.
  intros Hraw. rewrite (decode_masked raw Hraw).
  cbn [temperature pressure humidity fluidLevel].
  pose proof (low_byte_range raw) as Ht.
  rewrite (int16_small (Z.land raw 0xFF)) by lia.
  repeat split; lia.
Qed.

Lemma decode_formulas_witness :
  is_uint32 0x12345678 /\
  temperature (decode 0x12345678) = 100 /\
  fluidLevel (decode 0x12345678) = 582.
Proof.
  assert (H : is_uint32 0x12345678) by (unfold is_uint32; lia).
  split; [exact H |].
  destruct (decode_formulas 0x12345678 H) as (Ht & _ & _ & _ & Hf).
  split; [rewrite Ht | rewrite Hf]; reflexivity.
Defined.

(** ** Alarm evaluator: the humidity counter *)

Lemma bit_as_b2z (h i : Z) :
  0 <= i -> uint8 (Z.land (Z.shiftr h i) 0x1) = Z.b2z (Z.testbit h i).
Proof.
  intros Hi. change 0x1 with (Z.ones 1). rewrite Z.land_ones by lia.
  rewrite Z.shiftr_div_pow2 by exact Hi. change (2 ^ 1) with 2.
  rewrite <- Z.testbit_spec' by exact Hi.
  apply uint8_small. destruct (Z.testbit h i); simpl; lia.
Qed.

Lemma countHumidityBits_loop_count (n : nat) :
  forall i h counter,
    0 <= i -> 0 <= counter -> counter + Z.of_nat n < 256 ->
    countHumidityBits_loop n i h counter = counter + Spec.count_bits n i h.
Proof.
  induction n as [| n IH]; intros i h counter Hi Hc Hn.
  - simpl. lia.
  - cbn [countHumidityBits_loop Spec.count_bits].
    rewrite bit_as_b2z by exact Hi.
    destruct (Z.testbit h i); cbn [Z.b2z Z.eqb].
    + rewrite uint8_small by lia. rewrite IH by lia. lia.
    + rewrite IH by lia. lia.
Qed.

Lemma countHumidityBits_counter_low4 (h : Z) :
  countHumidityBits_counter h (uint8 HUMIDITY_BITS) = Spec.low4_set_bits h.
Proof.
  unfold countHumidityBits_counter, Spec.low4_set_bits.
  change (Z.to_nat (uint8 HUMIDITY_BITS)) with 4%nat.
  rewrite countHumidityBits_loop_count by lia. lia.
Qed.

Lemma countHumidityBits_low4 (h : Z) :
  countHumidityBits h (uint8 HUMIDITY_BITS)
  = if Spec.low4_set_bits h >? 2 then 1 else 0.
Proof.
  unfold countHumidityBits. now rewrite countHumidityBits_counter_low4.
Qed.

(** ** Alarm evaluator: the report in closed form *)

Lemma alarm_report (t p h f : Z) (stdout : list message) :
  alarm t p h f stdout
  = stdout ++ Spec.temperature_alarms t ++ Spec.pressure_alarms p ++
    Spec.humidity_alarms h ++ Spec.fluid_alarms f.
Proof.
  unfold alarm, printf, Spec.temperature_alarms, Spec.pressure_alarms,
    Spec.humidity_alarms, Spec.fluid_alarms, Spec.when.
  rewrite countHumidityBits_low4.
  destruct (t <=? 4) eqn:Ht1; destruct (t >? 100) eqn:Ht2; try lia;
    destruct (p <? 1013) eqn:Hp1; destruct (p >? 1135) eqn:Hp2; try lia;
    destruct (Spec.low4_set_bits h >? 2);
    destruct (f <=? 0) eqn:Hf1; destruct (f >? 8000) eqn:Hf2; try lia;
    cbn [Z.eqb negb app]; rewrite <- ?app_assoc, ?app_nil_r; reflexivity.
Qed.

Lemma raised_app (k : alarm_kind) (a b : list message) :
  raised k (a ++ b) = raised k a || raised k b.
Proof. unfold raised. apply existsb_app. Qed.

Lemma raised_report (k : alarm_kind) (t p h f : Z) :
  raised k (alarm t p h f [])
  = raised k (Spec.temperature_alarms t) || raised k (Spec.pressure_alarms p)
    || raised k (Spec.humidity_alarms h) || raised k (Spec.fluid_alarms f).
Proof.
  rewrite alarm_report. cbn [app]. rewrite !raised_app.
  now rewrite !orb_assoc.
Qed.

(** C2. The temperature alarms are raised exactly when temperature <= 4
    (low) and temperature > 100 (high), the pressure alarms exactly when
    pressure < 1013 (low) and pressure > 1135 (high), the tank-empty alarm
    exactly when fluidLevel <= 0, which for an unsigned level means
    fluidLevel = 0, and the overflow alarm exactly when fluidLevel > 8000. *)
Theorem alarm_thresholds (t p h f : Z) :
  is_uint16 f ->
  let report := alarm t p h f [] in
  (raised TemperatureLow report = true <-> t <= 4) /\
  (raised TemperatureHigh report = true <-> t > 100) /\
  (raised PressureLow report = true <-> p < 1013) /\
  (raised PressureHigh report = true <-> p > 1135) /\
  (raised TankEmpty report = true <-> f <= 0) /\
  (raised TankEmpty report = true <-> f = 0) /\
  (raised TankOverflow report = true <-> f > 8000).
Proof.
  intros [Hf0 _] report. subst report. rewrite !raised_report.
  unfold Spec.temperature_alarms, Spec.pressure_alarms,
    Spec.humidity_alarms, Spec.fluid_alarms, Spec.when.
  destruct (t <=? 4) eqn:Ht1; destruct (t >? 100) eqn:Ht2;
    destruct (p <? 1013) eqn:Hp1; destruct (p >? 1135) eqn:Hp2;
    destruct (Spec.low4_set_bits h >? 2);
    destruct (f <=? 0) eqn:Hf1; destruct (f >? 8000) eqn:Hf2;
    cbn; repeat split; intros; try lia; try discriminate.
Qed.

Lemma alarm_thresholds_witness :
  raised TemperatureLow (alarm 4 1013 0 8001 []) = true /\
  raised TankOverflow (alarm 4 1013 0 8001 []) = true /\
  raised TankOverflow (alarm 5 1013 0 8000 []) = false.
Proof.
  assert (H1 : is_uint16 8001) by (unfold is_uint16; lia).
  assert (H0 : is_uint16 8000) by (unfold is_uint16; lia).
  pose proof (alarm_thresholds 4 1013 0 8001 H1) as (Ht & _ & _ & _ & _ & _ & Hf).
  pose proof (alarm_thresholds 5 1013 0 8000 H0) as (_ & _ & _ & _ & _ & _ & Hf').
  split; [apply Ht; lia |]. split; [apply Hf; lia |].
  destruct (raised TankOverflow (alarm 5 1013 0 8000 [])) eqn:E; [| reflexivity].
  exfalso. assert (8000 > 8000) by (apply Hf'; reflexivity). lia.
Defined.

(** C3. The humidity alarm is raised exactly when more than two of the low
    four bits of the humidity value are set; the nibble 0b0111 (7) raises
    it and 0b0011 (3) does not. *)
Theorem humidity_alarm_iff (t p h f : Z) :
  (raised HumidityOutOfRange (alarm t p h f []) = true
   <-> 2 < Spec.low4_set_bits h) /\
  raised HumidityOutOfRange (alarm t p 7 f []) = true /\
  raised HumidityOutOfRange (alarm t p 3 f []) = false.
Proof.
  assert (G : forall x, raised HumidityOutOfRange (alarm t p x f [])
                        = (Spec.low4_set_bits x >? 2)).
  { intros x. rewrite raised_report.
    unfold Spec.temperature_alarms, Spec.pressure_alarms,
      Spec.humidity_alarms, Spec.fluid_alarms, Spec.when.
    destruct (t <=? 4); destruct (t >? 100); destruct (p <? 1013);
      destruct (p >? 1135); destruct (Spec.low4_set_bits x >? 2);
      destruct (f <=? 0); destruct (f >? 8000); reflexivity. }
  rewrite !G. repeat split; try reflexivity; intros; lia.
Qed.

(** C4. The evaluator checks all four fields: what it prints is exactly the
    alarms of the per-field conditions, none suppressing another, in the
    order temperature, pressure, humidity, fluid level; for raw = 0 the
    temperature-low, pressure-low and tank-empty alarms occur together. *)
Theorem alarm_reports_union (r : DecodedReading) (stdout : list message) :
  alarm_of r stdout = stdout ++ Spec.evaluate r /\
  StronglySorted le (map field_rank (alarm_of r [])) /\
  alarm_of (decode 0) []
  = [Alarm TemperatureLow [-20]; Alarm PressureLow [1010]; Alarm TankEmpty []].
Proof.
  split; [| split].
  - unfold alarm_of, Spec.evaluate. apply alarm_report.
  - unfold alarm_of. rewrite alarm_report. cbn [app].
    unfold Spec.temperature_alarms, Spec.pressure_alarms,
      Spec.humidity_alarms, Spec.fluid_alarms, Spec.when.
    destruct (temperature r <=? 4); destruct (temperature r >? 100);
      destruct (pressure r <? 1013); destruct (pressure r >? 1135);
      destruct (Spec.low4_set_bits (humidity r) >? 2);
      destruct (fluidLevel r <=? 0); destruct (fluidLevel r >? 8000);
      cbn [app map field_rank];
      repeat (constructor; [| repeat constructor; lia]); constructor.
  - reflexivity.
Qed.

(** ** The humidity value and its set bits *)

Lemma nibble_cases (h : Z) :
  0 <= h < 16 ->
  h = 0 \/ h = 1 \/ h = 2 \/ h = 3 \/ h = 4 \/ h = 5 \/ h = 6 \/ h = 7 \/
  h = 8 \/ h = 9 \/ h = 10 \/ h = 11 \/ h = 12 \/ h = 13 \/ h = 14 \/ h = 15.
Proof. lia. Qed.

Lemma nibble_high_bits (h i : Z) :
  0 <= h < 16 -> Z.testbit h i = true -> 0 <= i < 4.
Proof.
  intros Hh Hb. destruct (Z.lt_ge_cases i 0) as [Hneg | Hpos].
  - rewrite Z.testbit_neg_r in Hb by exact Hneg. discriminate.
  - split; [exact Hpos |]. destruct (Z.lt_ge_cases i 4) as [Hlt | Hge]; [exact Hlt |].
    rewrite <- (Z.mod_small h (2 ^ 4)) in Hb by exact Hh.
    rewrite Z.mod_pow2_bits_high in Hb by lia. discriminate.
Qed.

Lemma low4_popcount (h : Z) :
  0 <= h < 16 -> Spec.low4_set_bits h = Spec.popcount h.
Proof.
  intros Hh.
  pose proof (nibble_cases h Hh) as C.
  repeat (destruct C as [-> | C]; [reflexivity |]).
  subst h. reflexivity.
Qed.

(** C10. For every 32-bit word the humidity value [main] passes on is at
    most 15, so each of its set bits is one of the four bits that
    [countHumidityBits] examines, and the counter of [countHumidityBits]
    ends at the number of set bits of that value. *)
Theorem humidity_counter_is_popcount (raw : Z) :
  is_uint32 raw ->
  let h := humidity (decode raw) in
  0 <= h <= 15 /\
  (forall i, Z.testbit h i = true -> 0 <= i < uint8 HUMIDITY_BITS) /\
  countHumidityBits_counter h (uint8 HUMIDITY_BITS) = Spec.popcount h.
Proof.
  intros Hraw h.
  assert (Hh : 0 <= h < 16).
  { subst h. unfold decode; cbn [humidity]. rewrite getHumidity_eq by exact Hraw.
    apply Z.mod_pos_bound. lia. }
  split; [lia |]. split.
  - intros i. apply nibble_high_bits. exact Hh.
  - rewrite countHumidityBits_counter_low4. now apply low4_popcount.
Qed.

Lemma humidity_counter_is_popcount_witness :
  is_uint32 0x00038000 /\
  countHumidityBits_counter (humidity (decode 0x00038000)) (uint8 HUMIDITY_BITS)
  = Spec.popcount (humidity (decode 0x00038000)).
Proof.
  assert (H : is_uint32 0x00038000) by (unfold is_uint32; lia).
  split; [exact H |].
  apply (humidity_counter_is_popcount 0x00038000 H).
Defined.

(** ** Packing and the round trip *)

Lemma lor_shiftl_add (a b n : Z) :
  0 <= n -> 0 <= a < 2 ^ n -> Z.lor a (Z.shiftl b n) = a + b * 2 ^ n.
Proof.
  intros Hn Ha. rewrite <- Z.shiftl_mul_pow2 by exact Hn.
  symmetry. apply Z.add_nocarry_lor.
  apply Z.bits_inj'. intros i Hi. rewrite Z.land_spec, Z.bits_0.
  destruct (Z.lt_ge_cases i n) as [Hlt | Hge].
  - rewrite Z.shiftl_spec_low by exact Hlt. apply andb_false_r.
  - rewrite <- (Z.mod_small a (2 ^ n)) by exact Ha.
    rewrite Z.mod_pow2_bits_high by lia. reflexivity.
Qed.

Lemma pack_sum (t p h f : Z) :
  0 <= t < 256 -> 0 <= p < 128 -> 0 <= h < 16 ->
  pack t p h f = t + p * 2 ^ 8 + h * 2 ^ 15 + f * 2 ^ 19.
Proof.
  intros Ht Hp Hh. unfold pack.
  change PRESSURE_BITS_SHIFT with 8. change HUMIDITY_BITS_SHIFT with 15.
  change FLUID_LEVEL_BITS_SHIFT with 19.
  rewrite (lor_shiftl_add t p 8) by lia.
  rewrite (lor_shiftl_add _ h 15) by lia.
  rewrite (lor_shiftl_add _ f 19) by lia.
  reflexivity.
Qed.

Lemma pack_range (t p h f : Z) :
  0 <= t < 256 -> 0 <= p < 128 -> 0 <= h < 16 -> 0 <= f < 8192 ->
  is_uint32 (pack t p h f).
Proof.
  intros Ht Hp Hh Hf. rewrite pack_sum by assumption. unfold is_uint32. lia.
Qed.

Lemma decode_pack (t p h f : Z) :
  0 <= t < 256 -> 0 <= p < 128 -> 0 <= h < 16 -> 0 <= f < 8192 ->
  decode (pack t p h f) = mkReading (t - 20) (p + 1010) h f.
Proof.
  intros Ht Hp Hh Hf.
  pose proof (pack_range t p h f Ht Hp Hh Hf) as Hr.
  unfold decode.
  rewrite getTemperature_eq, getPressure_eq, getHumidity_eq, getFluidLevel_eq
    by exact Hr.
  rewrite pack_sum by assumption.
  f_equal; Z.div_mod_to_equations; lia.
Qed.

Lemma pack_decode (raw : Z) :
  is_uint32 raw ->
  pack (temperature (decode raw) + 20) (pressure (decode raw) - 1010)
       (humidity (decode raw)) (fluidLevel (decode raw)) = raw.
Proof.
  intros Hraw. unfold decode; cbn [temperature pressure humidity fluidLevel].
  rewrite getTemperature_eq, getPressure_eq, getHumidity_eq, getFluidLevel_eq
    by exact Hraw.
  rewrite pack_sum by (Z.div_mod_to_equations; lia).
  destruct Hraw as [H0 H1]. Z.div_mod_to_equations. lia.
Qed.

Lemma land_shifted_mask (raw m s : Z) :
  0 <= s -> Z.land raw (Z.shiftl m s) = Z.shiftl (Z.land (Z.shiftr raw s) m) s.
Proof.
  intros Hs. apply Z.bits_inj'. intros i Hi. rewrite Z.land_spec.
  destruct (Z.lt_ge_cases i s) as [Hlt | Hge].
  - rewrite !Z.shiftl_spec_low by exact Hlt. apply andb_false_r.
  - rewrite !Z.shiftl_spec by exact Hi.
    rewrite Z.land_spec, Z.shiftr_spec by lia.
    now replace (i - s + s) with i by lia.
Qed.

(** Each decoded value is the part of the word under its field mask. *)
Lemma decode_reads_fields (raw : Z) :
  is_uint32 raw ->
  Z.land raw temperature_field = temperature (decode raw) + 20 /\
  Z.land raw pressure_field
  = Z.shiftl (pressure (decode raw) - 1010) PRESSURE_BITS_SHIFT /\
  Z.land raw humidity_field
  = Z.shiftl (humidity (decode raw)) HUMIDITY_BITS_SHIFT /\
  Z.land raw fluid_field
  = Z.shiftl (fluidLevel (decode raw)) FLUID_LEVEL_BITS_SHIFT.
Proof.
  intros Hraw. rewrite (decode_masked raw Hraw).
  cbn [temperature pressure humidity fluidLevel].
  unfold temperature_field, pressure_field, humidity_field, fluid_field.
  rewrite !land_shifted_mask by (vm_compute; discriminate).
  repeat split.
  - change TEMPERATURE_BITS_MASK with 0xFF. lia.
  - f_equal. change PRESSURE_BITS_SHIFT with 8.
    change PRESSURE_BITS_MASK with 0x7F. lia.
Qed.

(** C5. Round trip: field values within their widths, packed at bit offsets
    0, 8, 15 and 19, form a 32-bit word that decodes to temperature_raw - 20,
    pressure_raw + 1010, humidity_raw and fluid_raw. The four fields do not
    overlap and together cover bits 0..31: their bit masks are pairwise
    disjoint and add up to the full word, each decoded value is the part of
    the word under its mask, and every 32-bit word is the packing of its own
    decoded fields. *)
Theorem pack_decode_roundtrip :
  (forall t p h f,
      0 <= t < 256 -> 0 <= p < 128 -> 0 <= h < 16 -> 0 <= f < 8192 ->
      is_uint32 (pack t p h f) /\
      decode (pack t p h f) = mkReading (t - 20) (p + 1010) h f) /\
  (Z.land temperature_field pressure_field = 0 /\
   Z.land temperature_field humidity_field = 0 /\
   Z.land temperature_field fluid_field = 0 /\
   Z.land pressure_field humidity_field = 0 /\
   Z.land pressure_field fluid_field = 0 /\
   Z.land humidity_field fluid_field = 0 /\
   Z.lor (Z.lor temperature_field pressure_field)
         (Z.lor humidity_field fluid_field) = 0xFFFFFFFF) /\
  (forall raw,
      is_uint32 raw ->
      Z.land raw temperature_field = temperature (decode raw) + 20 /\
      Z.land raw pressure_field
      = Z.shiftl (pressure (decode raw) - 1010) PRESSURE_BITS_SHIFT /\
      Z.land raw humidity_field
      = Z.shiftl (humidity (decode raw)) HUMIDITY_BITS_SHIFT /\
      Z.land raw fluid_field
      = Z.shiftl (fluidLevel (decode raw)) FLUID_LEVEL_BITS_SHIFT) /\
  (forall raw,
      is_uint32 raw ->
      pack (temperature (decode raw) + 20) (pressure (decode raw) - 1010)
           (humidity (decode raw)) (fluidLevel (decode raw)) = raw).
Proof.
  split; [| split; [| split]].
  - intros t p h f Ht Hp Hh Hf. split.
    + now apply pack_range.
    + now apply decode_pack.
  - repeat split; reflexivity.
  - exact decode_reads_fields.
  - exact pack_decode.
Qed.

Lemma pack_decode_roundtrip_witness :
  decode (pack 44 3 7 8001) = mkReading 24 1013 7 8001 /\
  pack (temperature (decode 0x12345678) + 20) (pressure (decode 0x12345678) - 1010)
       (humidity (decode 0x12345678)) (fluidLevel (decode 0x12345678))
  = 0x12345678.
Proof.
  destruct pack_decode_roundtrip as (Hfwd & _ & _ & Hback).
  split.
  - apply (Hfwd 44 3 7 8001); lia.
  - apply (Hback 0x12345678). unfold is_uint32. lia.
Defined.

(** ** Characters *)

(** A character that is told apart from every element of a literal list
    does not occur in it. *)
Ltac not_in_literal :=
  let H := fresh "H" in
  cbn [In]; intros H;
  repeat (destruct H as [H | H]; [discriminate H |]); exact H.

Lemma eqb_LF_false (c : ascii) : c <> LF -> Ascii.eqb c LF = false.
Proof. intros H. now apply Ascii.eqb_neq. Qed.

Lemma eqb_NUL_false (c : ascii) : c <> NUL -> Ascii.eqb c NUL = false.
Proof. intros H. now apply Ascii.eqb_neq. Qed.

Lemma toupper_NUL (c : ascii) : Ascii.eqb (toupper c) NUL = Ascii.eqb c NUL.
Proof. destruct c as [[] [] [] [] [] [] [] []]; reflexivity. Qed.

Lemma hex_check (c : ascii) :
  hex_digit c
  = isdigit c || negb ((code c <? code "A") || (code c >? code "F")).
Proof. destruct c as [[] [] [] [] [] [] [] []]; reflexivity. Qed.

Lemma code_inj (x y : ascii) : code x - code y = 0 -> x = y.
Proof.
  unfold code. intros H.
  rewrite <- (ascii_N_embedding x), <- (ascii_N_embedding y).
  f_equal. lia.
Qed.

(** ** The buffer as prefix, written cell, suffix *)

Lemma insert_at_end (pre suf : list ascii) (i : nat) (x c : ascii) :
  length pre = i -> <[i := c]> (pre ++ x :: suf) = pre ++ c :: suf.
Proof.
  intros <-. rewrite insert_app_r_alt by lia.
  now rewrite Nat.sub_diag.
Qed.

Lemma char_at_end (pre suf : list ascii) (i : nat) (x : ascii) :
  length pre = i -> char_at (pre ++ x :: suf) i = x.
Proof.
  intros <-. unfold char_at. now rewrite list_lookup_middle.
Qed.

(** ** Reading one line *)

Lemma flushBuffer_line (l rest : list ascii) :
  ~ In LF l -> flushBuffer (l ++ LF :: rest) = Some rest.
Proof.
  induction l as [| c l IH]; intros Hl.
  - reflexivity.
  - apply not_in_cons in Hl as [Hc Hl]. cbn [app flushBuffer].
    rewrite eqb_LF_false by congruence. now apply IH.
Qed.

Lemma getBuffer_from_line (l : list ascii) :
  forall (m i ts : nat) (pre suf rest : list ascii),
    ~ In LF l -> length pre = i -> length suf = S m -> ts = (i + S m)%nat ->
    getBuffer_from (S m) i ts (pre ++ suf) (l ++ LF :: rest)
    = Some (pre ++ take m l ++ NUL :: drop (S (min m (length l))) suf, rest).
Proof.
  induction l as [| c l IH]; intros m i ts pre suf rest Hl Hpre Hsuf Hts;
    destruct suf as [| x suf]; try discriminate.
  - cbn [app getBuffer_from getchar char_of_int].
    change (Ascii.eqb LF LF) with true. cbv iota.
    rewrite insert_at_end by exact Hpre.
    now rewrite take_nil, Nat.min_0_r.
  - apply not_in_cons in Hl as [Hc Hl].
    cbn [app getBuffer_from getchar char_of_int].
    rewrite eqb_LF_false by congruence.
    destruct m as [| m].
    + replace (ts - 1 <=? i)%nat with true by (symmetry; apply Nat.leb_le; lia).
      rewrite flushBuffer_line by exact Hl.
      cbn [getBuffer_from]. replace (ts - 1)%nat with i by lia.
      rewrite insert_at_end by exact Hpre.
      destruct suf; [reflexivity | discriminate].
    + replace (ts - 1 <=? i)%nat with false by (symmetry; apply Nat.leb_gt; lia).
      rewrite insert_at_end by exact Hpre.
      change (pre ++ c :: suf) with (pre ++ [c] ++ suf). rewrite app_assoc.
      rewrite (IH m (S i) ts (pre ++ [c]) suf rest Hl).
      * rewrite <- app_assoc. reflexivity.
      * rewrite length_app. cbn [length]. lia.
      * cbn [length] in Hsuf. lia.
      * lia.
Qed.

Lemma getBuffer_line (line rest buf : list ascii) :
  ~ In LF line -> length buf = HEX_INPUT_BUFFER_SIZE ->
  getBuffer buf HEX_INPUT_BUFFER_SIZE (line ++ LF :: rest)
  = Some (take MAX_HEX_DIGITS line ++
          NUL :: drop (S (min MAX_HEX_DIGITS (length line))) buf, rest).
Proof.
  intros Hl Hbuf. unfold getBuffer.
  exact (getBuffer_from_line line 8 0 9 [] buf rest Hl eq_refl Hbuf eq_refl).
Qed.

Lemma cstring_app_NUL (s tail : list ascii) :
  ~ In NUL s -> cstring (s ++ NUL :: tail) = s.
Proof.
  induction s as [| c s IH]; intros Hs.
  - reflexivity.
  - apply not_in_cons in Hs as [Hc Hs]. cbn [app cstring].
    rewrite eqb_NUL_false by congruence. now rewrite IH.
Qed.

Lemma not_in_take (x : ascii) (n : nat) (l : list ascii) :
  ~ In x l -> ~ In x (take n l).
Proof.
  intros Hl Hin. apply Hl. rewrite <- (take_drop n l).
  apply in_or_app. now left.
Qed.

(** C9. A line longer than 8 characters leaves its first 8 characters in
    the buffer with the terminator at index 8, and the rest of the line, its
    newline included, is consumed; a line of at most 8 characters is stored
    as it is, followed by the terminator, the cells behind it untouched.
    Either way the next read starts after the newline. *)
Theorem getBuffer_truncates (line rest buf : list ascii) :
  ~ In LF line -> length buf = HEX_INPUT_BUFFER_SIZE ->
  exists stored,
    getBuffer buf HEX_INPUT_BUFFER_SIZE (line ++ LF :: rest) = Some (stored, rest) /\
    length stored = HEX_INPUT_BUFFER_SIZE /\
    ((8 < length line)%nat ->
     take 8 stored = take 8 line /\ stored !! 8%nat = Some NUL) /\
    ((length line <= 8)%nat ->
     take (length line) stored = line /\
     stored !! length line = Some NUL /\
     drop (S (length line)) stored = drop (S (length line)) buf) /\
    (~ In NUL line -> cstring stored = take 8 line).
Proof.
  intros Hl Hbuf. eexists. split; [now apply getBuffer_line |].
  change MAX_HEX_DIGITS with 8%nat.
  assert (Hlen : length (take 8 line) = min 8 (length line)) by apply length_take.
  split; [| split; [| split]].
  - rewrite length_app. cbn [length]. rewrite length_drop, Hlen, Hbuf.
    unfold HEX_INPUT_BUFFER_SIZE. lia.
  - intros Hlong. split.
    + rewrite take_app_length' by lia. reflexivity.
    + rewrite list_lookup_middle by lia. reflexivity.
  - intros Hshort. rewrite (take_ge line 8) by lia. split; [| split].
    + now rewrite take_app_length.
    + now rewrite list_lookup_middle.
    + rewrite Nat.min_r by lia.
      change (line ++ NUL :: drop (S (length line)) buf)
        with (line ++ [NUL] ++ drop (S (length line)) buf).
      rewrite app_assoc. rewrite drop_app_length'; [reflexivity |].
      rewrite length_app. cbn [length]. lia.
  - intros Hnul. apply cstring_app_NUL. now apply not_in_take.
Qed.

Lemma getBuffer_truncates_witness :
  exists stored,
    getBuffer (repeat NUL 9) HEX_INPUT_BUFFER_SIZE
              (["1"; "2"; "3"; "4"; "5"; "6"; "7"; "8"; "9"; "A"]%char ++ LF :: ["F"]%char)
    = Some (stored, ["F"]%char) /\
    cstring stored = ["1"; "2"; "3"; "4"; "5"; "6"; "7"; "8"]%char.
Proof.
  destruct (getBuffer_truncates
              ["1"; "2"; "3"; "4"; "5"; "6"; "7"; "8"; "9"; "A"]%char
              ["F"]%char (repeat NUL 9))
    as (stored & Hget & _ & _ & _ & Hstr).
  - not_in_literal.
  - reflexivity.
  - exists stored. split; [exact Hget |]. apply Hstr. not_in_literal.
Defined.

(** ** String helpers on a terminated buffer *)

Lemma dataToUpperCase_from_string (s : list ascii) :
  forall (n i : nat) (pre tail : list ascii),
    ~ In NUL s -> length pre = i -> (length s <= n)%nat ->
    dataToUpperCase_from n i (pre ++ s ++ NUL :: tail)
    = pre ++ map toupper s ++ NUL :: tail.
Proof.
  induction s as [| c s IH]; intros n i pre tail Hs Hpre Hn.
  - destruct n as [| n]; [reflexivity |].
    cbn [app map dataToUpperCase_from]. rewrite char_at_end by exact Hpre.
    reflexivity.
  - apply not_in_cons in Hs as [Hc Hs].
    destruct n as [| n]; [cbn [length] in Hn; lia |].
    cbn [app map dataToUpperCase_from]. rewrite char_at_end by exact Hpre.
    rewrite eqb_NUL_false by congruence.
    rewrite insert_at_end by exact Hpre.
    change (pre ++ toupper c :: s ++ NUL :: tail)
      with (pre ++ [toupper c] ++ s ++ NUL :: tail).
    rewrite app_assoc. rewrite IH.
    + now rewrite <- app_assoc.
    + exact Hs.
    + rewrite length_app. cbn [length]. lia.
    + cbn [length] in Hn. lia.
Qed.

Lemma checkEnteredData_from_string (s : list ascii) :
  forall (n i : nat) (pre tail : list ascii),
    ~ In NUL s -> length pre = i -> (length s <= n)%nat ->
    checkEnteredData_from n i (pre ++ s ++ NUL :: tail) = forallb hex_digit s.
Proof.
  induction s as [| c s IH]; intros n i pre tail Hs Hpre Hn.
  - destruct n as [| n]; [reflexivity |].
    cbn [app checkEnteredData_from forallb]. rewrite char_at_end by exact Hpre.
    reflexivity.
  - apply not_in_cons in Hs as [Hc Hs].
    destruct n as [| n]; [cbn [length] in Hn; lia |].
    cbn [app checkEnteredData_from forallb]. rewrite char_at_end by exact Hpre.
    rewrite eqb_NUL_false by congruence. rewrite hex_check.
    assert (Hrec : checkEnteredData_from n (S i) (pre ++ c :: s ++ NUL :: tail)
                   = forallb hex_digit s).
    { change (pre ++ c :: s ++ NUL :: tail) with (pre ++ [c] ++ s ++ NUL :: tail).
      rewrite app_assoc. apply IH.
      - exact Hs.
      - rewrite length_app. cbn [length]. lia.
      - cbn [length] in Hn. lia. }
    destruct (isdigit c); destruct ((code c <? code "A") || (code c >? code "F"));
      cbn [negb orb andb]; try exact Hrec; reflexivity.
Qed.

Lemma length_flushData_from (n : nat) :
  forall (i : nat) (data : list ascii),
    length (flushData_from n i data) = length data.
Proof.
  induction n as [| n IH]; intros i data; cbn [flushData_from].
  - reflexivity.
  - destruct (Ascii.eqb (char_at data i) NUL); [reflexivity |].
    rewrite IH. apply length_insert.
Qed.

Lemma length_flushData (data : list ascii) (n : nat) :
  length (flushData data n) = length data.
Proof. apply length_flushData_from. Qed.

Lemma strcmp_zero_iff (a : list ascii) :
  forall b, strcmp a b = 0 <-> cstring a = cstring b.
Proof.
  induction a as [| x a IH]; intros [| y b]; cbn [strcmp cstring].
  - tauto.
  - destruct (Ascii.eqb y NUL) eqn:Ey.
    + apply Ascii.eqb_eq in Ey. subst y. split; [reflexivity | intros _; lia].
    + split; [| discriminate]. intros H. apply code_inj in H. subst y.
      discriminate Ey.
  - destruct (Ascii.eqb x NUL) eqn:Ex.
    + apply Ascii.eqb_eq in Ex. subst x. split; [reflexivity | intros _; lia].
    + split; [| discriminate]. intros H. apply code_inj in H. subst x.
      discriminate Ex.
  - destruct (Ascii.eqb x y) eqn:Exy.
    + apply Ascii.eqb_eq in Exy. subst y.
      destruct (Ascii.eqb x NUL); [tauto |].
      rewrite IH. split; [intros ->; reflexivity | intros H; now inversion H].
    + apply Ascii.eqb_neq in Exy. split.
      * intros H. apply code_inj in H. contradiction.
      * destruct (Ascii.eqb x NUL) eqn:Ex; destruct (Ascii.eqb y NUL) eqn:Ey;
          try discriminate.
        -- apply Ascii.eqb_eq in Ex, Ey. congruence.
        -- intros H. inversion H. contradiction.
Qed.

Lemma checkIfEnd_iff (data : list ascii) :
  checkIfEnd data = true <-> cstring data = END_token.
Proof.
  unfold checkIfEnd. change END_token with (cstring END_literal).
  rewrite <- strcmp_zero_iff.
  destruct (strcmp data END_literal =? 0) eqn:E; split; intros H;
    try reflexivity; try discriminate; lia.
Qed.

Lemma map_toupper_no_NUL (s : list ascii) :
  ~ In NUL s -> ~ In NUL (map toupper s).
Proof.
  intros Hs Hin. apply in_map_iff in Hin as (c & Hc & Hin).
  assert (E : Ascii.eqb (toupper c) NUL = true) by now apply Ascii.eqb_eq.
  rewrite toupper_NUL in E. apply Ascii.eqb_eq in E. subst c. contradiction.
Qed.

(** ** One pass of the input loop *)

(** What a pass does once the line reader has left the terminated string
    [s] in the buffer. *)
Lemma enterData_body_stored (buf s tail stdin stdin' : list ascii)
    (out : list message) :
  getBuffer buf HEX_INPUT_BUFFER_SIZE stdin = Some (s ++ NUL :: tail, stdin') ->
  ~ In NUL s -> (length s <= MAX_HEX_DIGITS)%nat ->
  enterData_body buf MAX_HEX_DIGITS HEX_INPUT_BUFFER_SIZE (mkIO stdin out)
  = match s with
    | [] => Continue (flushData (NUL :: tail) HEX_INPUT_BUFFER_SIZE)
                     (mkIO stdin' (out ++ [Prompt; EmptyData]))
    | _ :: _ =>
      let data := map toupper s ++ NUL :: tail in
      if checkIfEnd data then Exit 0 (mkIO stdin' (out ++ [Prompt; Closing]))
      else if forallb hex_digit (map toupper s)
      then Break data (mkIO stdin' (out ++ [Prompt]))
      else Continue (flushData data HEX_INPUT_BUFFER_SIZE)
                    (mkIO stdin' (out ++ [Prompt; WrongData]))
    end.
Proof.
  intros Hget Hs Hlen. unfold enterData_body. cbn [pending printed].
  rewrite Hget. unfold printf. rewrite <- !app_assoc. cbn [app].
  destruct s as [| c s].
  - reflexivity.
  - pose proof Hs as Hs'. apply not_in_cons in Hs' as [Hc _].
    pose proof (dataToUpperCase_from_string (c :: s) MAX_HEX_DIGITS 0 [] tail
                  Hs eq_refl Hlen) as Hup.
    pose proof (checkEnteredData_from_string (map toupper (c :: s))
                  MAX_HEX_DIGITS 0 [] tail) as Hck.
    rewrite length_map in Hck.
    specialize (Hck (map_toupper_no_NUL _ Hs) eq_refl Hlen).
    cbn [app map] in Hup, Hck |- *.
    change (char_at (c :: s ++ NUL :: tail) 0) with c.
    rewrite (eqb_NUL_false c) by congruence. cbn [negb].
    unfold dataToUpperCase. rewrite Hup.
    change (char_at (toupper c :: map toupper s ++ NUL :: tail) 0) with (toupper c).
    rewrite toupper_NUL. rewrite (eqb_NUL_false c) by congruence.
    destruct (checkIfEnd _); [reflexivity |].
    unfold checkEnteredData. rewrite Hck.
    destruct (forallb hex_digit (toupper c :: map toupper s)); reflexivity.
Qed.

Lemma take_nonempty (line : list ascii) :
  take MAX_HEX_DIGITS line = [] <-> line = [].
Proof. destruct line; cbn; split; intros H; try reflexivity; discriminate. Qed.

Lemma normalized_END (line : list ascii) :
  normalized line = END_token <-> map toupper line = END_token.
Proof.
  unfold normalized. split; intros H.
  - assert (Hl : length (map toupper (take MAX_HEX_DIGITS line)) = 3%nat)
      by now rewrite H.
    rewrite length_map, length_take in Hl. unfold MAX_HEX_DIGITS in *.
    rewrite take_ge in H by lia. exact H.
  - assert (Hl : length (map toupper line) = 3%nat) by now rewrite H.
    rewrite length_map in Hl. unfold MAX_HEX_DIGITS.
    rewrite take_ge by lia. exact H.
Qed.

(** A pass over a line of text, in terms of what is kept of the line. *)
Lemma enterData_body_line (line rest buf : list ascii) (out : list message) :
  ~ In LF line -> ~ In NUL line -> length buf = HEX_INPUT_BUFFER_SIZE ->
  exists tail,
    enterData_body buf MAX_HEX_DIGITS HEX_INPUT_BUFFER_SIZE
                   (mkIO (line ++ LF :: rest) out)
    = match line with
      | [] => Continue (flushData (NUL :: tail) HEX_INPUT_BUFFER_SIZE)
                       (mkIO rest (out ++ [Prompt; EmptyData]))
      | _ :: _ =>
        let data := normalized line ++ NUL :: tail in
        if checkIfEnd data then Exit 0 (mkIO rest (out ++ [Prompt; Closing]))
        else if forallb hex_digit (normalized line)
        then Break data (mkIO rest (out ++ [Prompt]))
        else Continue (flushData data HEX_INPUT_BUFFER_SIZE)
                      (mkIO rest (out ++ [Prompt; WrongData]))
      end /\
    (checkIfEnd (normalized line ++ NUL :: tail) = true
     <-> map toupper line = END_token) /\
    cstring (normalized line ++ NUL :: tail) = normalized line.
Proof.
  intros Hlf Hnul Hbuf.
  exists (drop (S (min MAX_HEX_DIGITS (length line))) buf).
  assert (Hn : ~ In NUL (normalized line))
    by (apply map_toupper_no_NUL; now apply not_in_take).
  split; [| split].
  - rewrite (enterData_body_stored buf (take MAX_HEX_DIGITS line) _ _ rest out
               (getBuffer_line line rest buf Hlf Hbuf)).
    + destruct line as [| c line]; reflexivity.
    + now apply not_in_take.
    + rewrite length_take. lia.
  - rewrite checkIfEnd_iff, cstring_app_NUL by exact Hn. apply normalized_END.
  - now apply cstring_app_NUL.
Qed.

(** ** Whatever the input, a returned buffer holds hexadecimal digits *)

Lemma getBuffer_from_terminated (n : nat) :
  forall (i ts : nat) (input stdin stored stdin' : list ascii),
    (i + n = ts)%nat -> (0 < n)%nat -> length input = ts ->
    getBuffer_from n i ts input stdin = Some (stored, stdin') ->
    length stored = ts /\ exists k, (k < ts)%nat /\ stored !! k = Some NUL.
Proof.
  induction n as [| n IH]; intros i ts input stdin stored stdin' Hts Hn Hlen Hget.
  - lia.
  - cbn [getBuffer_from] in Hget.
    destruct (getchar stdin) as [r stdin1].
    destruct (Ascii.eqb (char_of_int r) LF).
    + inversion Hget; subst stored stdin'. rewrite length_insert. split; [exact Hlen |].
      exists i. split; [lia |]. apply list_lookup_insert_eq. lia.
    + destruct (ts - 1 <=? i)%nat eqn:Hlast.
      * apply Nat.leb_le in Hlast.
        destruct (flushBuffer stdin1) as [stdin2 |]; [| discriminate].
        assert (n = 0%nat) by lia. subst n. cbn [getBuffer_from] in Hget.
        inversion Hget; subst stored stdin'. rewrite length_insert.
        split; [exact Hlen |]. exists (ts - 1)%nat. split; [lia |].
        apply list_lookup_insert_eq. lia.
      * apply Nat.leb_gt in Hlast.
        apply (IH (S i) ts _ _ _ _ ltac:(lia) ltac:(lia)) in Hget;
          [exact Hget |].
        now rewrite length_insert.
Qed.

Lemma cstring_no_NUL (data : list ascii) : ~ In NUL (cstring data).
Proof.
  induction data as [| c data IH]; cbn [cstring]; [tauto |].
  destruct (Ascii.eqb c NUL) eqn:E; [cbn; tauto |].
  apply Ascii.eqb_neq in E. intros [H | H]; [congruence | contradiction].
Qed.

Lemma cstring_split (data : list ascii) :
  forall k, data !! k = Some NUL ->
    exists tail, data = cstring data ++ NUL :: tail /\
                 (length (cstring data) <= k)%nat.
Proof.
  induction data as [| c data IH]; intros k Hk; [discriminate |].
  cbn [cstring]. destruct (Ascii.eqb c NUL) eqn:E.
  - apply Ascii.eqb_eq in E. subst c. exists data. split; [reflexivity |].
    cbn [length]. lia.
  - destruct k as [| k].
    + cbn in Hk. inversion Hk. subst c. discriminate E.
    + cbn in Hk. destruct (IH k Hk) as (tail & Hd & Hl).
      exists tail. split; [cbn [app]; now rewrite <- Hd | cbn [length]; lia].
Qed.

Lemma enterData_body_lengths (buf : list ascii) (w : io) :
  length buf = HEX_INPUT_BUFFER_SIZE ->
  match enterData_body buf MAX_HEX_DIGITS HEX_INPUT_BUFFER_SIZE w with
  | Continue data _ => length data = HEX_INPUT_BUFFER_SIZE
  | Break data _ =>
    length data = HEX_INPUT_BUFFER_SIZE /\
    (1 <= length (cstring data) <= MAX_HEX_DIGITS)%nat /\
    forallb hex_digit (cstring data) = true
  | Exit status _ => status = 0
  | Hang => True
  end.
Proof.
  intros Hbuf. destruct w as [stdin out].
  destruct (getBuffer buf HEX_INPUT_BUFFER_SIZE stdin) as [[stored stdin'] |] eqn:Hget.
  - pose proof Hget as Hterm. unfold getBuffer in Hterm.
    apply getBuffer_from_terminated in Hterm as (Hlen & k & Hk & Hnul);
      [| reflexivity | unfold HEX_INPUT_BUFFER_SIZE; lia | exact Hbuf].
    destruct (cstring_split stored k Hnul) as (tail & Hsplit & Hle).
    pose proof (cstring_no_NUL stored) as Hs.
    remember (cstring stored) as s eqn:Es. clear Es. subst stored.
    rewrite length_app in Hlen. cbn [length] in Hlen.
    rewrite (enterData_body_stored buf s tail stdin stdin' out Hget Hs)
      by (unfold HEX_INPUT_BUFFER_SIZE, MAX_HEX_DIGITS in *; lia).
    unfold HEX_INPUT_BUFFER_SIZE, MAX_HEX_DIGITS in *.
    destruct s as [| c s].
    + rewrite length_flushData. cbn [length]. cbn [length] in Hlen. lia.
    + cbv zeta. destruct (checkIfEnd _); [reflexivity |].
      destruct (forallb hex_digit (map toupper (c :: s))) eqn:Hhex.
      * rewrite cstring_app_NUL by now apply map_toupper_no_NUL.
        rewrite length_app, !length_map. cbn [length] in *.
        split; [lia |]. split; [lia | exact Hhex].
      * rewrite length_flushData, length_app, length_map. cbn [length] in *. lia.
  - unfold enterData_body. cbn [pending]. rewrite Hget. exact I.
Qed.

Lemma enterData_returns_hex (fuel : nat) :
  forall (buf : list ascii) (w : io) (data : list ascii) (w' : io),
    length buf = HEX_INPUT_BUFFER_SIZE ->
    enterData fuel buf MAX_HEX_DIGITS HEX_INPUT_BUFFER_SIZE w = Returned data w' ->
    (1 <= length (cstring data) <= MAX_HEX_DIGITS)%nat /\
    forallb hex_digit (cstring data) = true.
Proof.
  induction fuel as [| fuel IH]; intros buf w data w' Hbuf Hrun; [discriminate |].
  cbn [enterData] in Hrun.
  pose proof (enterData_body_lengths buf w Hbuf) as Hpass.
  destruct (enterData_body buf MAX_HEX_DIGITS HEX_INPUT_BUFFER_SIZE w)
    as [d w1 | d w1 | st w1 |]; try discriminate.
  - now apply (IH d w1 data w').
  - inversion Hrun; subst d w1. tauto.
Qed.

Lemma enterData_exit_status (fuel : nat) :
  forall (buf : list ascii) (w : io) (status : Z) (w' : io),
    length buf = HEX_INPUT_BUFFER_SIZE ->
    enterData fuel buf MAX_HEX_DIGITS HEX_INPUT_BUFFER_SIZE w = Exited status w' ->
    status = 0.
Proof.
  induction fuel as [| fuel IH]; intros buf w status w' Hbuf Hrun; [discriminate |].
  cbn [enterData] in Hrun.
  pose proof (enterData_body_lengths buf w Hbuf) as Hpass.
  destruct (enterData_body buf MAX_HEX_DIGITS HEX_INPUT_BUFFER_SIZE w)
    as [d w1 | d w1 | st w1 |]; try discriminate.
  - now apply (IH d w1 status w').
  - inversion Hrun. congruence.
Qed.

(** ** The input loop on a line of text *)

(** C6, as the code has it. On a line of text the program exits, with
    status 0, exactly when the line reads END once put in upper case: the
    buffer is upper-cased before [checkIfEnd] compares it, so "end" and
    "End" leave the program as "END" does. Whatever the input, the loop
    never exits with another status. *)
Theorem enterData_exit_iff (line rest buf : list ascii) (out : list message) :
  ~ In LF line -> ~ In NUL line -> length buf = HEX_INPUT_BUFFER_SIZE ->
  let pass := enterData_body buf MAX_HEX_DIGITS HEX_INPUT_BUFFER_SIZE
                             (mkIO (line ++ LF :: rest) out) in
  ((exists status w', pass = Exit status w') <-> map toupper line = END_token) /\
  (forall status w',
      pass = Exit status w' ->
      status = 0 /\ w' = mkIO rest (out ++ [Prompt; Closing])) /\
  (map toupper line = END_token ->
   forall fuel,
     enterData (S fuel) buf MAX_HEX_DIGITS HEX_INPUT_BUFFER_SIZE
               (mkIO (line ++ LF :: rest) out)
     = Exited 0 (mkIO rest (out ++ [Prompt; Closing]))) /\
  (forall fuel buf0 w status w',
      length buf0 = HEX_INPUT_BUFFER_SIZE ->
      enterData fuel buf0 MAX_HEX_DIGITS HEX_INPUT_BUFFER_SIZE w = Exited status w' ->
      status = 0).
Proof.
  intros Hlf Hnul Hbuf pass.
  destruct (enterData_body_line line rest buf out Hlf Hnul Hbuf)
    as (tail & Hpass & Hend & _).
  fold pass in Hpass.
  assert (Hexit : forall status w', pass = Exit status w' ->
                    map toupper line = END_token /\ status = 0 /\
                    w' = mkIO rest (out ++ [Prompt; Closing])).
  { intros status w' E. rewrite Hpass in E. destruct line as [| c line].
    - discriminate E.
    - cbv zeta in E.
      destruct (checkIfEnd (normalized (c :: line) ++ NUL :: tail)) eqn:Hc.
      + inversion E. split; [now apply Hend | split; reflexivity].
      + destruct (forallb hex_digit (normalized (c :: line))); discriminate E. }
  assert (Hquit : map toupper line = END_token ->
                  pass = Exit 0 (mkIO rest (out ++ [Prompt; Closing]))).
  { intros E. rewrite Hpass. destruct line as [| c line]; [discriminate E |].
    cbv zeta. apply Hend in E. now rewrite E. }
  split; [| split; [| split]].
  - split.
    + intros (status & w' & E). now apply Hexit in E.
    + intros E. eexists _, _. now apply Hquit.
  - intros status w' E. now apply Hexit in E.
  - intros E fuel. cbn [enterData]. fold pass. now rewrite (Hquit E).
  - intros fuel buf0 w status w'. apply enterData_exit_status.
Qed.

Lemma enterData_exit_iff_witness :
  enterData 1 (repeat NUL 9) MAX_HEX_DIGITS HEX_INPUT_BUFFER_SIZE
            (mkIO (["E"; "n"; "d"]%char ++ LF :: ["1"]%char) [])
  = Exited 0 (mkIO ["1"]%char ([] ++ [Prompt; Closing])).
Proof.
  refine (proj1 (proj2 (proj2 (enterData_exit_iff ["E"; "n"; "d"]%char ["1"]%char
                                 (repeat NUL 9) [] _ _ eq_refl))) eq_refl 0%nat);
    not_in_literal.
Defined.

(** C6 as stated fails: the line "end" is not the token END, yet the
    program exits on it. *)
Lemma lowercase_end_exits :
  enterData_body (repeat NUL 9) MAX_HEX_DIGITS HEX_INPUT_BUFFER_SIZE
                 (mkIO (["e"; "n"; "d"]%char ++ [LF]) [])
  = Exit 0 (mkIO [] [Prompt; Closing]) /\
  ["e"; "n"; "d"]%char <> END_token.
Proof. split; [reflexivity | discriminate]. Qed.

Lemma cstring_before_NUL (a tail : list ascii) :
  cstring (a ++ NUL :: tail) = cstring a.
Proof.
  induction a as [| c a IH]; cbn [app cstring]; [reflexivity |].
  destruct (Ascii.eqb c NUL); [reflexivity | now rewrite IH].
Qed.

Lemma kept_text (line : list ascii) :
  ~ In NUL line ->
  kept line = take MAX_HEX_DIGITS line /\ map toupper (kept line) = normalized line.
Proof.
  intros Hnul. assert (E : kept line = take MAX_HEX_DIGITS line).
  { unfold kept. rewrite <- (cstring_before_NUL (take MAX_HEX_DIGITS line) []).
    apply cstring_app_NUL. now apply not_in_take. }
  split; [exact E |]. now rewrite E.
Qed.

(** A pass over any line, in terms of the string kept from it. *)
Lemma enterData_body_any_line (line rest buf : list ascii) (out : list message) :
  ~ In LF line -> length buf = HEX_INPUT_BUFFER_SIZE ->
  exists tail,
    enterData_body buf MAX_HEX_DIGITS HEX_INPUT_BUFFER_SIZE
                   (mkIO (line ++ LF :: rest) out)
    = match kept line with
      | [] => Continue (flushData (NUL :: tail) HEX_INPUT_BUFFER_SIZE)
                       (mkIO rest (out ++ [Prompt; EmptyData]))
      | _ :: _ =>
        let data := map toupper (kept line) ++ NUL :: tail in
        if checkIfEnd data then Exit 0 (mkIO rest (out ++ [Prompt; Closing]))
        else if forallb hex_digit (map toupper (kept line))
        then Break data (mkIO rest (out ++ [Prompt]))
        else Continue (flushData data HEX_INPUT_BUFFER_SIZE)
                      (mkIO rest (out ++ [Prompt; WrongData]))
      end /\
    (checkIfEnd (map toupper (kept line) ++ NUL :: tail) = true
     <-> map toupper (kept line) = END_token) /\
    cstring (map toupper (kept line) ++ NUL :: tail) = map toupper (kept line).
Proof.
  intros Hlf Hbuf.
  pose proof (getBuffer_line line rest buf Hlf Hbuf) as Hget.
  set (tail0 := drop (S (min MAX_HEX_DIGITS (length line))) buf) in Hget.
  assert (Hnul : (take MAX_HEX_DIGITS line ++ NUL :: tail0)
                   !! length (take MAX_HEX_DIGITS line) = Some NUL)
    by now rewrite list_lookup_middle.
  destruct (cstring_split _ _ Hnul) as (tail & Hsplit & Hle).
  rewrite cstring_before_NUL in Hsplit, Hle. fold (kept line) in Hsplit, Hle.
  rewrite Hsplit in Hget.
  assert (Hk : ~ In NUL (kept line)) by apply cstring_no_NUL.
  assert (Hn : ~ In NUL (map toupper (kept line))) by now apply map_toupper_no_NUL.
  exists tail. split; [| split].
  - rewrite (enterData_body_stored buf (kept line) tail _ rest out Hget Hk).
    + destruct (kept line); reflexivity.
    + rewrite length_take in Hle. lia.
  - now rewrite checkIfEnd_iff, cstring_app_NUL by exact Hn.
  - now apply cstring_app_NUL.
Qed.

(** C7, as the code has it. What is validated is the string kept from a
    line: its first 8 characters, ending before the first terminator among
    them if there is one (for a line without terminator, its first 8
    characters; what comes after the eighth is dropped unchecked). The line
    is accepted exactly when that string is not empty and each of its
    characters, put in upper case, is a digit 0-9 or a letter A-F; the
    accepted buffer holds those upper-cased characters. A line whose kept
    string is empty, or not so formed and not END, is answered with its
    message and the loop goes round again. Whatever the input, a buffer
    handed back to [main] holds 1 to 8 hexadecimal digits. *)
Theorem enterData_accepts_iff (line rest buf : list ascii) (out : list message) :
  ~ In LF line -> length buf = HEX_INPUT_BUFFER_SIZE ->
  let pass := enterData_body buf MAX_HEX_DIGITS HEX_INPUT_BUFFER_SIZE
                             (mkIO (line ++ LF :: rest) out) in
  ((exists data w', pass = Break data w')
   <-> kept line <> [] /\ forallb hex_digit (map toupper (kept line)) = true) /\
  (forall data w',
      pass = Break data w' ->
      cstring data = map toupper (kept line) /\ w' = mkIO rest (out ++ [Prompt])) /\
  (kept line = [] ->
   exists data, pass = Continue data (mkIO rest (out ++ [Prompt; EmptyData]))) /\
  (kept line <> [] -> forallb hex_digit (map toupper (kept line)) = false ->
   map toupper (kept line) <> END_token ->
   exists data, pass = Continue data (mkIO rest (out ++ [Prompt; WrongData]))) /\
  (forall data w',
      pass = Continue data w' ->
      forall fuel,
        enterData (S fuel) buf MAX_HEX_DIGITS HEX_INPUT_BUFFER_SIZE
                  (mkIO (line ++ LF :: rest) out)
        = enterData fuel data MAX_HEX_DIGITS HEX_INPUT_BUFFER_SIZE w') /\
  (~ In NUL line ->
   kept line = take MAX_HEX_DIGITS line /\
   map toupper (kept line) = normalized line /\
   (kept line <> [] <-> line <> [])) /\
  (forall fuel buf0 w data w',
      length buf0 = HEX_INPUT_BUFFER_SIZE ->
      enterData fuel buf0 MAX_HEX_DIGITS HEX_INPUT_BUFFER_SIZE w = Returned data w' ->
      (1 <= length (cstring data) <= MAX_HEX_DIGITS)%nat /\
      forallb hex_digit (cstring data) = true).
Proof.
  intros Hlf Hbuf pass.
  destruct (enterData_body_any_line line rest buf out Hlf Hbuf)
    as (tail & Hpass & Hend & Hstr).
  fold pass in Hpass.
  assert (Hnohex : checkIfEnd (map toupper (kept line) ++ NUL :: tail) = true ->
                   forallb hex_digit (map toupper (kept line)) = false).
  { intros E. apply Hend in E. now rewrite E. }
  assert (Hbreak : forall data w', pass = Break data w' ->
            (kept line <> [] /\ forallb hex_digit (map toupper (kept line)) = true) /\
            cstring data = map toupper (kept line) /\
            w' = mkIO rest (out ++ [Prompt])).
  { intros data w' E. rewrite Hpass in E.
    destruct (kept line) as [| c k] eqn:Ek; [discriminate E |]. cbv zeta in E.
    destruct (checkIfEnd _); [discriminate E |].
    destruct (forallb hex_digit (map toupper (c :: k))); [| discriminate E].
    inversion E. subst data w'. repeat split; [discriminate | exact Hstr]. }
  split; [| split; [| split; [| split; [| split; [| split]]]]].
  - split.
    + intros (data & w' & E). now apply Hbreak in E.
    + intros [Hne Hhex]. rewrite Hpass.
      destruct (kept line) as [| c k] eqn:Ek; [contradiction |]. cbv zeta.
      destruct (checkIfEnd _) eqn:Hc.
      * specialize (Hnohex eq_refl). congruence.
      * rewrite Hhex. eexists _, _. reflexivity.
  - intros data w' E. now apply Hbreak in E.
  - intros E. rewrite Hpass, E. eexists. reflexivity.
  - intros Hne Hhex Hnot. rewrite Hpass.
    destruct (kept line) as [| c k] eqn:Ek; [contradiction |]. cbv zeta.
    destruct (checkIfEnd _) eqn:Hc;
      [exfalso; apply Hnot, Hend; reflexivity |].
    rewrite Hhex. eexists. reflexivity.
  - intros data w' E fuel. cbn [enterData]. fold pass. now rewrite E.
  - intros Hnul. destruct (kept_text line Hnul) as [Ek En].
    split; [exact Ek |]. split; [exact En |].
    rewrite Ek. destruct line; cbn; split; intros H; congruence.
  - intros fuel buf0 w data w'. apply enterData_returns_hex.
Qed.

Lemma enterData_accepts_iff_witness :
  exists data w',
    enterData_body (repeat NUL 9) MAX_HEX_DIGITS HEX_INPUT_BUFFER_SIZE
                   (mkIO (["1"; "a"; NUL; "z"; "z"]%char ++ LF :: []) [])
    = Break data w'.
Proof.
  refine (proj2 (proj1 (enterData_accepts_iff ["1"; "a"; NUL; "z"; "z"]%char []
                          (repeat NUL 9) [] _ eq_refl)) _).
  - not_in_literal.
  - split; [vm_compute; discriminate | reflexivity].
Defined.

(** C7 as stated fails: the line "12345678ZZ" holds characters that are
    not hexadecimal digits, yet it is accepted, cut to "12345678". *)
Lemma long_line_accepted :
  enterData_body (repeat NUL 9) MAX_HEX_DIGITS HEX_INPUT_BUFFER_SIZE
                 (mkIO (["1"; "2"; "3"; "4"; "5"; "6"; "7"; "8"; "Z"; "Z"]%char ++ [LF]) [])
  = Break (["1"; "2"; "3"; "4"; "5"; "6"; "7"; "8"]%char ++ [NUL]) (mkIO [] [Prompt]) /\
  forallb hex_digit
    (map toupper ["1"; "2"; "3"; "4"; "5"; "6"; "7"; "8"; "Z"; "Z"]%char) = false.
Proof. split; reflexivity. Qed.

(** * Further properties of the code *)

(** ** The line reader on any input *)

Lemma first_LF_split (stdin : list ascii) :
  In LF stdin -> exists l rest, ~ In LF l /\ stdin = l ++ LF :: rest.
Proof.
  induction stdin as [| c stdin IH]; intros Hin; [contradiction |].
  destruct (Ascii.eqb c LF) eqn:E.
  - apply Ascii.eqb_eq in E. subst c. exists [], stdin. split; [tauto | reflexivity].
  - apply Ascii.eqb_neq in E. destruct Hin as [Hc | Hin]; [congruence |].
    destruct (IH Hin) as (l & rest & Hl & ->).
    exists (c :: l), rest. split; [| reflexivity].
    intros [H | H]; [congruence | contradiction].
Qed.

Lemma flushBuffer_Some (stdin rest : list ascii) :
  flushBuffer stdin = Some rest ->
  exists l, ~ In LF l /\ stdin = l ++ LF :: rest.
Proof.
  revert rest. induction stdin as [| c stdin IH]; intros rest H; [discriminate |].
  cbn [flushBuffer] in H. destruct (Ascii.eqb c LF) eqn:E.
  - apply Ascii.eqb_eq in E. subst c. inversion H. subst rest.
    exists []. split; [tauto | reflexivity].
  - apply Ascii.eqb_neq in E. destruct (IH rest H) as (l & Hl & ->).
    exists (c :: l). split; [| reflexivity].
    intros [Hc | Hc]; [congruence | contradiction].
Qed.

Lemma flushBuffer_no_LF (stdin : list ascii) :
  ~ In LF stdin -> flushBuffer stdin = None.
Proof.
  intros Hno. destruct (flushBuffer stdin) as [rest |] eqn:E; [| reflexivity].
  exfalso. apply flushBuffer_Some in E as (l & _ & ->).
  apply Hno, in_or_app. right. now left.
Qed.

(** X1. [flushBuffer] returns exactly when a newline is left on standard
    input, and then it has consumed the input up to and including the first
    newline; without a newline it never returns. *)
Theorem flushBuffer_first_newline (stdin : list ascii) :
  (forall rest,
      flushBuffer stdin = Some rest
      <-> exists l, ~ In LF l /\ stdin = l ++ LF :: rest) /\
  (flushBuffer stdin = None <-> ~ In LF stdin).
Proof.
  split.
  - intros rest. split.
    + apply flushBuffer_Some.
    + intros (l & Hl & ->). now apply flushBuffer_line.
  - split.
    + intros Hnone Hin. apply first_LF_split in Hin as (l & rest & Hl & ->).
      rewrite flushBuffer_line in Hnone by exact Hl. discriminate.
    + apply flushBuffer_no_LF.
Qed.

Lemma flushBuffer_first_newline_witness :
  flushBuffer (["a"; "b"]%char ++ LF :: ["c"]%char) = Some ["c"]%char.
Proof.
  apply (proj1 (flushBuffer_first_newline _)).
  exists ["a"; "b"]%char. split; [not_in_literal | reflexivity].
Defined.

Lemma getBuffer_from_consumes (n : nat) :
  forall (i ts : nat) (input stdin stored stdin' : list ascii),
    (0 < n)%nat -> (i + n = ts)%nat ->
    getBuffer_from n i ts input stdin = Some (stored, stdin') ->
    exists l, ~ In LF l /\ stdin = l ++ LF :: stdin'.
Proof.
  induction n as [| n IH]; intros i ts input stdin stored stdin' Hn Hts Hget; [lia |].
  cbn [getBuffer_from] in Hget.
  destruct stdin as [| c stdin]; cbn [getchar char_of_int] in Hget.
  - change (Ascii.eqb EOF_char LF) with false in Hget. cbv iota in Hget.
    destruct (ts - 1 <=? i)%nat eqn:Hlast.
    + discriminate Hget.
    + apply Nat.leb_gt in Hlast.
      apply IH in Hget as (l & _ & Hnil); [| lia | lia].
      destruct l; discriminate Hnil.
  - destruct (Ascii.eqb c LF) eqn:E.
    + apply Ascii.eqb_eq in E. subst c. inversion Hget. subst.
      exists []. split; [tauto | reflexivity].
    + apply Ascii.eqb_neq in E.
      assert (Hcons : forall l, ~ In LF l -> ~ In LF (c :: l))
        by (intros l Hl [H | H]; [congruence | contradiction]).
      destruct (ts - 1 <=? i)%nat eqn:Hlast.
      * apply Nat.leb_le in Hlast. assert (n = 0%nat) by lia. subst n.
        destruct (flushBuffer stdin) as [stdin2 |] eqn:Hflush; [| discriminate].
        cbn [getBuffer_from] in Hget. inversion Hget. subst.
        apply flushBuffer_Some in Hflush as (l & Hl & ->).
        exists (c :: l). split; [now apply Hcons | reflexivity].
      * apply Nat.leb_gt in Hlast.
        apply IH in Hget as (l & Hl & ->); [| lia | lia].
        exists (c :: l). split; [now apply Hcons | reflexivity].
Qed.

Lemma getBuffer_from_returns (l : list ascii) :
  forall (n i ts : nat) (input rest : list ascii),
    ~ In LF l -> (0 < n)%nat -> (i + n = ts)%nat ->
    exists stored,
      getBuffer_from n i ts input (l ++ LF :: rest) = Some (stored, rest).
Proof.
  induction l as [| c l IH]; intros n i ts input rest Hl Hn Hts;
    destruct n as [| n]; try lia.
  - eexists. reflexivity.
  - apply not_in_cons in Hl as [Hc Hl].
    cbn [app getBuffer_from getchar char_of_int].
    rewrite eqb_LF_false by congruence.
    destruct (ts - 1 <=? i)%nat eqn:Hlast.
    + apply Nat.leb_le in Hlast. assert (n = 0%nat) by lia. subst n.
      rewrite flushBuffer_line by exact Hl. eexists. reflexivity.
    + apply Nat.leb_gt in Hlast. apply IH; [exact Hl | lia | lia].
Qed.

Lemma getBuffer_returns_newline_aux (input stdin : list ascii) (table_size : nat) :
  (0 < table_size)%nat ->
  (getBuffer input table_size stdin = None <-> ~ In LF stdin) /\
  (forall stored stdin',
      getBuffer input table_size stdin = Some (stored, stdin') ->
      exists l, ~ In LF l /\ stdin = l ++ LF :: stdin').
Proof.
  intros Hts. unfold getBuffer. split; [split |].
  - intros Hnone Hin. apply first_LF_split in Hin as (l & rest & Hl & ->).
    destruct (getBuffer_from_returns l table_size 0 table_size input rest Hl Hts eq_refl)
      as (stored & E).
    rewrite E in Hnone. discriminate.
  - intros Hno.
    destruct (getBuffer_from table_size 0 table_size input stdin)
      as [[stored stdin'] |] eqn:E; [| reflexivity].
    exfalso. apply getBuffer_from_consumes in E as (l & _ & ->); [| lia | lia].
    apply Hno, in_or_app. right. now left.
  - intros stored stdin' E.
    now apply getBuffer_from_consumes in E; [| lia | lia].
Qed.

(** X2. With a buffer of at least one cell, [getBuffer] returns exactly when
    a newline is left on standard input, and it then leaves the input just
    after the first newline: each call consumes one line. At end of input
    without a newline it never returns. *)
Theorem getBuffer_returns_iff_newline (input stdin : list ascii) (table_size : nat) :
  (0 < table_size)%nat ->
  (getBuffer input table_size stdin = None <-> ~ In LF stdin) /\
  (forall stored stdin',
      getBuffer input table_size stdin = Some (stored, stdin') ->
      exists l, ~ In LF l /\ stdin = l ++ LF :: stdin').
Proof.
  intros Hts. unfold getBuffer. split; [split |].
  - intros Hnone Hin. apply first_LF_split in Hin as (l & rest & Hl & ->).
    destruct (getBuffer_from_returns l table_size 0 table_size input rest Hl Hts eq_refl)
      as (stored & E).
    rewrite E in Hnone. discriminate.
  - intros Hno.
    destruct (getBuffer_from table_size 0 table_size input stdin)
      as [[stored stdin'] |] eqn:E; [| reflexivity].
    exfalso. apply getBuffer_from_consumes in E as (l & _ & ->); [| lia | lia].
    apply Hno, in_or_app. right. now left.
  - intros stored stdin' E.
    now apply getBuffer_from_consumes in E; [| lia | lia].
Qed.

Lemma getBuffer_returns_iff_newline_witness :
  getBuffer (repeat NUL 9) 9 ["1"; "2"; "3"]%char = None.
Proof.
  apply (proj1 (getBuffer_returns_iff_newline (repeat NUL 9) ["1"; "2"; "3"]%char 9
                  ltac:(lia))).
  not_in_literal.
Defined.

Lemma cstring_length_le (data : list ascii) :
  (length (cstring data) <= length data)%nat.
Proof.
  induction data as [| c data IH]; cbn [cstring length]; [lia |].
  destruct (Ascii.eqb c NUL); cbn [length]; lia.
Qed.

(** X3. Whatever arrives on standard input, a call of [getBuffer] that
    returns leaves the buffer with the length it had and with a terminator
    inside it: the string it holds has at most [table_size - 1]
    characters and is followed by its terminator within the buffer. *)
Theorem getBuffer_keeps_buffer_terminated
    (input stdin stored stdin' : list ascii) (table_size : nat) :
  (0 < table_size)%nat -> length input = table_size ->
  getBuffer input table_size stdin = Some (stored, stdin') ->
  length stored = table_size /\
  (length (cstring stored) < table_size)%nat /\
  stored !! length (cstring stored) = Some NUL.
Proof.
  intros Hts Hlen Hget. unfold getBuffer in Hget.
  apply getBuffer_from_terminated in Hget as (Hl & k & Hk & Hnul);
    [| reflexivity | exact Hts | exact Hlen].
  destruct (cstring_split stored k Hnul) as (tail & Hsplit & Hle).
  split; [exact Hl |]. split; [lia |].
  remember (cstring stored) as s eqn:Es. clear Es. subst stored.
  now rewrite list_lookup_middle.
Qed.

Lemma getBuffer_keeps_buffer_terminated_witness :
  exists stored stdin',
    getBuffer (repeat EOF_char 3) 3 ["a"; "b"; "c"; "d"; LF]%char
    = Some (stored, stdin') /\
    length stored = 3%nat /\ (length (cstring stored) < 3)%nat.
Proof.
  eexists _, _. split; [reflexivity |].
  destruct (getBuffer_keeps_buffer_terminated
              (repeat EOF_char 3) ["a"; "b"; "c"; "d"; LF]%char _ _ 3
              ltac:(lia) eq_refl eq_refl) as (H1 & H2 & _).
  split; [exact H1 | exact H2].
Defined.

(** ** The string helpers on any buffer *)

Lemma char_at_past_end (pre : list ascii) (i : nat) :
  length pre = i -> char_at (pre ++ []) i = NUL.
Proof.
  intros <-. unfold char_at. rewrite app_nil_r.
  now rewrite lookup_ge_None_2 by lia.
Qed.

Lemma toupper_idempotent (c : ascii) : toupper (toupper c) = toupper c.
Proof. destruct c as [[] [] [] [] [] [] [] []]; reflexivity. Qed.

Lemma dataToUpperCase_from_closed (data : list ascii) :
  forall (n i : nat) (pre : list ascii),
    length pre = i ->
    dataToUpperCase_from n i (pre ++ data)
    = pre ++ map toupper (take (min n (length (cstring data))) data)
          ++ drop (min n (length (cstring data))) data.
Proof.
  induction data as [| c data IH]; intros n i pre Hpre.
  - destruct n as [| n]; cbn [dataToUpperCase_from]; [reflexivity |].
    now rewrite char_at_past_end by exact Hpre.
  - destruct n as [| n]; [reflexivity |].
    cbn [dataToUpperCase_from cstring]. rewrite char_at_end by exact Hpre.
    destruct (Ascii.eqb c NUL); [reflexivity |].
    rewrite insert_at_end by exact Hpre.
    change (pre ++ toupper c :: data) with (pre ++ [toupper c] ++ data).
    rewrite app_assoc. rewrite IH by (rewrite length_app; cbn [length]; lia).
    rewrite <- app_assoc. reflexivity.
Qed.

Lemma cstring_upper_prefix (data : list ascii) :
  forall k, (k <= length (cstring data))%nat ->
    length (cstring (map toupper (take k data) ++ drop k data))
    = length (cstring data).
Proof.
  induction data as [| c data IH]; intros k Hk.
  - now rewrite take_nil, drop_nil.
  - destruct k as [| k]; [reflexivity |].
    cbn [cstring] in Hk |- *. cbn [take drop map app cstring].
    rewrite toupper_NUL. destruct (Ascii.eqb c NUL).
    + cbn [length] in Hk. lia.
    + cbn [length] in Hk |- *. rewrite IH by lia. reflexivity.
Qed.

(** X4. [dataToUpperCase] puts in upper case the characters of the string in
    the buffer, at most the first [max_size] of them, and leaves every other
    cell as it was: the terminator, what lies behind it, and the characters
    of the string from index [max_size] on. Applying it twice changes
    nothing more. *)
Theorem dataToUpperCase_closed_form (data : list ascii) (max_size : nat) :
  let k := min max_size (length (cstring data)) in
  dataToUpperCase data max_size = map toupper (take k data) ++ drop k data /\
  length (dataToUpperCase data max_size) = length data /\
  dataToUpperCase (dataToUpperCase data max_size) max_size
  = dataToUpperCase data max_size.
Proof.
  intros k.
  assert (Hclosed : forall d, dataToUpperCase d max_size
            = map toupper (take (min max_size (length (cstring d))) d)
              ++ drop (min max_size (length (cstring d))) d).
  { intros d. exact (dataToUpperCase_from_closed d max_size 0 [] eq_refl). }
  pose proof (cstring_length_le data) as Hle.
  split; [apply Hclosed |]. split.
  - rewrite Hclosed. fold k. rewrite length_app, length_map, length_take, length_drop.
    lia.
  - rewrite (Hclosed (dataToUpperCase data max_size)). rewrite (Hclosed data).
    fold k. rewrite cstring_upper_prefix by lia. fold k.
    assert (Hk : length (map toupper (take k data)) = k)
      by (rewrite length_map, length_take; lia).
    rewrite take_app_length' by (symmetry; exact Hk).
    rewrite drop_app_length' by (symmetry; exact Hk).
    rewrite map_map. f_equal. apply map_ext. intros c. apply toupper_idempotent.
Qed.

Lemma flushData_from_closed (data : list ascii) :
  forall (n i : nat) (pre : list ascii),
    length pre = i ->
    flushData_from n i (pre ++ data)
    = pre ++ repeat NUL (min n (length (cstring data)))
          ++ drop (min n (length (cstring data))) data.
Proof.
  induction data as [| c data IH]; intros n i pre Hpre.
  - destruct n as [| n]; cbn [flushData_from]; [reflexivity |].
    now rewrite char_at_past_end by exact Hpre.
  - destruct n as [| n]; [reflexivity |].
    cbn [flushData_from cstring]. rewrite char_at_end by exact Hpre.
    destruct (Ascii.eqb c NUL); [reflexivity |].
    rewrite insert_at_end by exact Hpre.
    change (pre ++ NUL :: data) with (pre ++ [NUL] ++ data).
    rewrite app_assoc. rewrite IH by (rewrite length_app; cbn [length]; lia).
    rewrite <- app_assoc. reflexivity.
Qed.

(** X5. [flushData] overwrites with zeros the characters of the string in
    the buffer, at most the first [size_of_table] of them, and stops at the
    first terminator: every cell from there on keeps what it held. With
    [size_of_table] at least 1 the buffer then holds the empty string. *)
Theorem flushData_clears_string_only (data : list ascii) (size_of_table : nat) :
  let k := min size_of_table (length (cstring data)) in
  flushData data size_of_table = repeat NUL k ++ drop k data /\
  drop k (flushData data size_of_table) = drop k data /\
  ((0 < size_of_table)%nat -> cstring (flushData data size_of_table) = []).
Proof.
  intros k.
  assert (Hclosed : flushData data size_of_table = repeat NUL k ++ drop k data)
    by exact (flushData_from_closed data size_of_table 0 [] eq_refl).
  split; [exact Hclosed |]. split.
  - rewrite Hclosed. now rewrite drop_app_length' by now rewrite repeat_length.
  - intros Hn. rewrite Hclosed. destruct k as [| k'] eqn:Ek.
    + assert (Hz : length (cstring data) = 0%nat) by (subst k; lia).
      change (repeat NUL 0 ++ drop 0 data) with data.
      now apply length_zero_iff_nil.
    + reflexivity.
Qed.

Lemma flushData_clears_string_only_witness :
  cstring (flushData ["A"; "B"; NUL; "C"; "D"]%char 5) = [] /\
  flushData ["A"; "B"; NUL; "C"; "D"]%char 5 = [NUL; NUL; NUL; "C"; "D"]%char.
Proof.
  destruct (flushData_clears_string_only ["A"; "B"; NUL; "C"; "D"]%char 5)
    as (Hclosed & _ & Hempty).
  split; [apply Hempty; lia | exact Hclosed].
Defined.

Lemma checkEnteredData_from_closed (data : list ascii) :
  forall (n i : nat) (pre : list ascii),
    length pre = i ->
    checkEnteredData_from n i (pre ++ data)
    = forallb hex_digit (take n (cstring data)).
Proof.
  induction data as [| c data IH]; intros n i pre Hpre.
  - destruct n as [| n]; cbn [checkEnteredData_from]; [reflexivity |].
    now rewrite char_at_past_end by exact Hpre.
  - destruct n as [| n]; [reflexivity |].
    cbn [checkEnteredData_from cstring]. rewrite char_at_end by exact Hpre.
    destruct (Ascii.eqb c NUL); [reflexivity |].
    cbn [take forallb]. rewrite hex_check.
    assert (Hrec : checkEnteredData_from n (S i) (pre ++ c :: data)
                   = forallb hex_digit (take n (cstring data))).
    { change (pre ++ c :: data) with (pre ++ [c] ++ data).
      rewrite app_assoc. apply IH. rewrite length_app. cbn [length]. lia. }
    destruct (isdigit c); destruct ((code c <? code "A") || (code c >? code "F"));
      cbn [negb orb andb]; try exact Hrec; reflexivity.
Qed.

(** X6. [checkEnteredData] answers true exactly when each of the first
    [max_size] characters of the string in the buffer is a digit 0-9 or an
    upper-case letter A-F. Characters of the string from index [max_size]
    on and cells behind the terminator are not looked at, and the empty
    string passes. *)
Theorem checkEnteredData_closed_form (data : list ascii) (max_size : nat) :
  checkEnteredData data max_size
  = forallb hex_digit (take max_size (cstring data)) /\
  (cstring data = [] -> checkEnteredData data max_size = true).
Proof.
  assert (H : checkEnteredData data max_size
              = forallb hex_digit (take max_size (cstring data)))
    by exact (checkEnteredData_from_closed data max_size 0 [] eq_refl).
  split; [exact H |]. intros E. rewrite H, E. now rewrite take_nil.
Qed.

Lemma checkEnteredData_closed_form_witness :
  checkEnteredData [NUL; "x"; "y"]%char 8 = true.
Proof.
  apply (proj2 (checkEnteredData_closed_form [NUL; "x"; "y"]%char 8)).
  reflexivity.
Defined.

(** X7. [checkIfEnd] answers true exactly when the string in the buffer is
    END, letter for letter in upper case; two buffers holding the same string
    get the same answer, whatever lies behind their terminators. *)
Theorem checkIfEnd_exact (data : list ascii) :
  (checkIfEnd data = true <-> cstring data = END_token) /\
  (forall other, cstring other = cstring data -> checkIfEnd other = checkIfEnd data).
Proof.
  split; [apply checkIfEnd_iff |].
  intros other E. destruct (checkIfEnd data) eqn:Hd.
  - apply checkIfEnd_iff. rewrite E. now apply checkIfEnd_iff.
  - destruct (checkIfEnd other) eqn:Ho; [| reflexivity].
    apply checkIfEnd_iff in Ho. rewrite E in Ho. apply checkIfEnd_iff in Ho.
    congruence.
Qed.

Lemma checkIfEnd_exact_witness :
  checkIfEnd (END_token ++ [NUL; "x"]%char) = checkIfEnd END_literal.
Proof.
  apply (proj2 (checkIfEnd_exact END_literal)). reflexivity.
Defined.

(** ** How the input loop ends *)

Lemma newlines_line (l rest : list ascii) :
  ~ In LF l -> newlines (l ++ LF :: rest) = S (newlines rest).
Proof.
  induction l as [| c l IH]; intros Hl.
  - reflexivity.
  - apply not_in_cons in Hl as [Hc Hl]. cbn [app newlines].
    rewrite eqb_LF_false by congruence. now apply IH.
Qed.

Lemma enterData_body_consumes (buf : list ascii) (max_size table_size : nat) (w : io) :
  (0 < table_size)%nat ->
  match enterData_body buf max_size table_size w with
  | Continue _ w' | Break _ w' | Exit _ w' =>
    exists l, ~ In LF l /\ pending w = l ++ LF :: pending w'
  | Hang => ~ In LF (pending w)
  end.
Proof.
  intros Hts. unfold enterData_body.
  pose proof (getBuffer_returns_newline_aux buf (pending w) table_size Hts) as [Hnone Hsome].
  destruct (getBuffer buf table_size (pending w)) as [[stored stdin'] |] eqn:Hget.
  - specialize (Hsome stored stdin' eq_refl).
    repeat match goal with
           | |- context [if ?b then _ else _] => destruct b
           end; exact Hsome.
  - now apply Hnone.
Qed.

Lemma enterData_enough_fuel (fuel : nat) :
  forall (buf : list ascii) (max_size table_size : nat) (w : io),
    (0 < table_size)%nat -> (newlines (pending w) < fuel)%nat ->
    enterData fuel buf max_size table_size w <> OutOfFuel.
Proof.
  induction fuel as [| fuel IH]; intros buf max_size table_size w Hts Hfuel; [lia |].
  cbn [enterData].
  pose proof (enterData_body_consumes buf max_size table_size w Hts) as Hpass.
  destruct (enterData_body buf max_size table_size w) as [d w' | d w' | st w' |];
    try discriminate.
  destruct Hpass as (l & Hl & E). apply IH; [exact Hts |].
  rewrite E, newlines_line in Hfuel by exact Hl. lia.
Qed.

Lemma enterData_more_fuel (fuel : nat) :
  forall (fuel' : nat) (buf : list ascii) (max_size table_size : nat) (w : io),
    enterData fuel buf max_size table_size w <> OutOfFuel ->
    (fuel <= fuel')%nat ->
    enterData fuel' buf max_size table_size w
    = enterData fuel buf max_size table_size w.
Proof.
  induction fuel as [| fuel IH]; intros fuel' buf max_size table_size w Hres Hle.
  - now contradiction Hres.
  - destruct fuel' as [| fuel']; [lia |]. cbn [enterData] in Hres |- *.
    destruct (enterData_body buf max_size table_size w) as [d w' | d w' | st w' |];
      try reflexivity.
    apply IH; [exact Hres | lia].
Qed.

(** X8. The input loop needs at most one pass per newline left on standard
    input, plus one: its outcome (a returned buffer, an exit, or a hang at
    end of input) is reached within that many passes, and allowing more
    passes does not change it. *)
Theorem enterData_outcome_within_newlines
    (buf : list ascii) (max_size table_size : nat) (w : io) :
  (0 < table_size)%nat ->
  exists outcome,
    outcome <> OutOfFuel /\
    forall fuel, (newlines (pending w) < fuel)%nat ->
                 enterData fuel buf max_size table_size w = outcome.
Proof.
  intros Hts.
  exists (enterData (S (newlines (pending w))) buf max_size table_size w).
  assert (Hok : enterData (S (newlines (pending w))) buf max_size table_size w
                <> OutOfFuel)
    by (apply enterData_enough_fuel; [exact Hts | lia]).
  split; [exact Hok |].
  intros fuel Hfuel. apply enterData_more_fuel; [exact Hok | lia].
Qed.

Lemma enterData_outcome_within_newlines_witness :
  exists outcome,
    outcome <> OutOfFuel /\
    forall fuel, (newlines (pending (mkIO ["x"; LF; "1"; LF]%char [])) < fuel)%nat ->
                 enterData fuel (repeat NUL 9) 8 9 (mkIO ["x"; LF; "1"; LF]%char [])
                 = outcome.
Proof.
  apply (enterData_outcome_within_newlines (repeat NUL 9) 8 9
           (mkIO ["x"; LF; "1"; LF]%char [])).
  lia.
Defined.

(** X9. When no newline is left on standard input (end of input, reached
    at once or in the middle of a line), the input loop neither returns nor
    exits: after printing its prompt it hangs in [flushBuffer]. *)
Theorem enterData_hangs_without_newline
    (buf : list ascii) (max_size table_size fuel : nat) (w : io) :
  (0 < table_size)%nat -> ~ In LF (pending w) ->
  enterData_body buf max_size table_size w = Hang /\
  enterData (S fuel) buf max_size table_size w = Diverged.
Proof.
  intros Hts Hno.
  assert (Hpass : enterData_body buf max_size table_size w = Hang).
  { unfold enterData_body.
    now rewrite (proj2 (proj1 (getBuffer_returns_newline_aux buf (pending w)
                                 table_size Hts)) Hno). }
  split; [exact Hpass |]. cbn [enterData]. now rewrite Hpass.
Qed.

Lemma enterData_hangs_without_newline_witness :
  enterData 3 (repeat NUL 9) 8 9 (mkIO ["E"; "N"; "D"]%char []) = Diverged.
Proof.
  apply (enterData_hangs_without_newline (repeat NUL 9) 8 9 2
           (mkIO ["E"; "N"; "D"]%char [])); [lia | not_in_literal].
Defined.

(** ** The input loop over several lines *)

Lemma enterData_body_rejected (line rest buf : list ascii) (out : list message) :
  text_line line -> rejected line -> length buf = HEX_INPUT_BUFFER_SIZE ->
  exists buf',
    length buf' = HEX_INPUT_BUFFER_SIZE /\
    enterData_body buf MAX_HEX_DIGITS HEX_INPUT_BUFFER_SIZE
                   (mkIO (line ++ LF :: rest) out)
    = Continue buf' (mkIO rest (out ++ rejection line)).
Proof.
  intros [Hlf Hnul] Hrej Hbuf.
  destruct (enterData_body_line line rest buf out Hlf Hnul Hbuf)
    as (tail & Hpass & Hend & _).
  pose proof (enterData_body_lengths buf (mkIO (line ++ LF :: rest) out) Hbuf) as Hlen.
  rewrite Hpass in Hlen |- *. destruct line as [| c line].
  - eexists. split; [exact Hlen | reflexivity].
  - destruct Hrej as [Hnil | [Hhex Hnot]]; [discriminate Hnil |].
    cbv zeta in Hlen |- *.
    destruct (checkIfEnd (normalized (c :: line) ++ NUL :: tail)) eqn:Hc;
      [exfalso; apply Hnot, Hend; reflexivity |].
    rewrite Hhex in Hlen |- *. eexists. split; [exact Hlen | reflexivity].
Qed.

Lemma enterData_body_accepted (line rest buf : list ascii) (out : list message) :
  text_line line -> accepted line -> length buf = HEX_INPUT_BUFFER_SIZE ->
  exists data,
    length data = HEX_INPUT_BUFFER_SIZE /\ cstring data = normalized line /\
    enterData_body buf MAX_HEX_DIGITS HEX_INPUT_BUFFER_SIZE
                   (mkIO (line ++ LF :: rest) out)
    = Break data (mkIO rest (out ++ [Prompt])).
Proof.
  intros [Hlf Hnul] [Hne Hhex] Hbuf.
  destruct (enterData_body_line line rest buf out Hlf Hnul Hbuf)
    as (tail & Hpass & Hend & Hstr).
  pose proof (enterData_body_lengths buf (mkIO (line ++ LF :: rest) out) Hbuf) as Hlen.
  rewrite Hpass in Hlen |- *. destruct line as [| c line]; [contradiction |].
  cbv zeta in Hlen |- *.
  destruct (checkIfEnd (normalized (c :: line) ++ NUL :: tail)) eqn:Hc.
  - exfalso. destruct Hend as [Hend _]. specialize (Hend eq_refl).
    apply normalized_END in Hend. rewrite Hend in Hhex. discriminate Hhex.
  - rewrite Hhex in Hlen |- *. eexists. split; [apply Hlen |].
    split; [exact Hstr | reflexivity].
Qed.

Lemma enterData_body_quit (line rest buf : list ascii) (out : list message) :
  text_line line -> map toupper line = END_token ->
  length buf = HEX_INPUT_BUFFER_SIZE ->
  enterData_body buf MAX_HEX_DIGITS HEX_INPUT_BUFFER_SIZE
                 (mkIO (line ++ LF :: rest) out)
  = Exit 0 (mkIO rest (out ++ [Prompt; Closing])).
Proof.
  intros [Hlf Hnul] Hquit Hbuf.
  destruct (enterData_body_line line rest buf out Hlf Hnul Hbuf)
    as (tail & Hpass & Hend & _).
  rewrite Hpass. destruct line as [| c line]; [discriminate Hquit |].
  cbv zeta. apply Hend in Hquit. now rewrite Hquit.
Qed.

Lemma enterData_skips (bad : list (list ascii)) :
  forall (buf stdin : list ascii) (out : list message) (fuel : nat),
    Forall (fun l => text_line l /\ rejected l) bad ->
    length buf = HEX_INPUT_BUFFER_SIZE ->
    exists buf',
      length buf' = HEX_INPUT_BUFFER_SIZE /\
      enterData (length bad + fuel) buf MAX_HEX_DIGITS HEX_INPUT_BUFFER_SIZE
                (mkIO (typed bad ++ stdin) out)
      = enterData fuel buf' MAX_HEX_DIGITS HEX_INPUT_BUFFER_SIZE
                  (mkIO stdin (out ++ flat_map rejection bad)).
Proof.
  induction bad as [| l bad IH]; intros buf stdin out fuel Hbad Hbuf.
  - exists buf. split; [exact Hbuf |]. cbn. now rewrite app_nil_r.
  - inversion Hbad as [| ? ? [Htext Hrej] Hbad']; subst.
    cbn [typed flat_map length Nat.add enterData]. rewrite <- !app_assoc. cbn [app].
    destruct (enterData_body_rejected l (typed bad ++ stdin) buf out Htext Hrej Hbuf)
      as (buf1 & Hbuf1 & Hpass).
    fold (typed bad). rewrite Hpass.
    destruct (IH buf1 stdin (out ++ rejection l) fuel Hbad' Hbuf1) as (buf' & Hbuf' & E).
    exists buf'. split; [exact Hbuf' |]. rewrite E. now rewrite <- app_assoc.
Qed.

(** X10. The input loop works through its input line by line. After any
    number of rejected lines of text (empty, or not made of hexadecimal
    digits, and not END), each answered by the prompt and its message, the
    first accepted line is returned in upper case, cut to 8 characters, and
    a line reading END exits with status 0; in both cases the input is left
    just after that line, and no character of an earlier line shows in the
    returned string. *)
Theorem enterData_skips_rejected_lines
    (bad : list (list ascii)) (last rest buf : list ascii)
    (out : list message) (fuel : nat) :
  Forall (fun l => text_line l /\ rejected l) bad -> text_line last ->
  length buf = HEX_INPUT_BUFFER_SIZE -> (length bad < fuel)%nat ->
  let run := enterData fuel buf MAX_HEX_DIGITS HEX_INPUT_BUFFER_SIZE
                       (mkIO (typed bad ++ last ++ LF :: rest) out) in
  (accepted last ->
   exists data,
     cstring data = normalized last /\
     run = Returned data (mkIO rest (out ++ flat_map rejection bad ++ [Prompt]))) /\
  (map toupper last = END_token ->
   run = Exited 0 (mkIO rest (out ++ flat_map rejection bad ++ [Prompt; Closing]))).
Proof.
  intros Hbad Htext Hbuf Hfuel run. subst run.
  replace fuel with (length bad + S (fuel - length bad - 1))%nat by lia.
  destruct (enterData_skips bad buf (last ++ LF :: rest) out
              (S (fuel - length bad - 1)) Hbad Hbuf) as (buf' & Hbuf' & E).
  rewrite E. cbn [enterData]. split.
  - intros Hacc.
    destruct (enterData_body_accepted last rest buf' (out ++ flat_map rejection bad)
                Htext Hacc Hbuf') as (data & _ & Hstr & Hpass).
    rewrite Hpass. exists data. split; [exact Hstr |]. now rewrite <- app_assoc.
  - intros Hquit.
    rewrite (enterData_body_quit last rest buf' _ Htext Hquit Hbuf').
    now rewrite <- app_assoc.
Qed.

Lemma enterData_skips_rejected_lines_witness :
  exists data,
    cstring data = ["1"; "F"]%char /\
    enterData 3 (repeat NUL 9) MAX_HEX_DIGITS HEX_INPUT_BUFFER_SIZE
              (mkIO (typed [["x"; "y"; "z"; "z"; "y"]%char; []] ++ ["1"; "f"]%char ++ LF :: []) [])
    = Returned data (mkIO [] ([] ++ flat_map rejection [["x"; "y"; "z"; "z"; "y"]%char; []]
                                 ++ [Prompt])).
Proof.
  refine (proj1 (enterData_skips_rejected_lines
                   [["x"; "y"; "z"; "z"; "y"]%char; []] ["1"; "f"]%char []
                   (repeat NUL 9) [] 3 _ _ eq_refl _) _).
  - constructor;
      [split; [split; not_in_literal | right; split; [reflexivity | discriminate]] |].
    constructor; [split; [split; not_in_literal | left; reflexivity] |].
    constructor.
  - split; not_in_literal.
  - cbn [length]. lia.
  - split; [discriminate | reflexivity].
Defined.

(** ** Hexadecimal strings as numbers *)

Lemma hex_digit_value_range (c : ascii) :
  hex_digit c = true -> 0 <= hex_digit_value c < 16.
Proof.
  destruct c as [[] [] [] [] [] [] [] []]; vm_compute; intros H;
    first [discriminate H | split; [discriminate | reflexivity]].
Qed.

Lemma hex_fold_bound (s : list ascii) :
  forall acc,
    forallb hex_digit s = true -> 0 <= acc ->
    0 <= fold_left (fun a c => 16 * a + hex_digit_value c) s acc
    < (acc + 1) * 16 ^ Z.of_nat (length s).
Proof.
  induction s as [| c s IH]; intros acc Hs Hacc.
  - cbn. lia.
  - cbn [forallb] in Hs. apply andb_true_iff in Hs as [Hc Hs].
    pose proof (hex_digit_value_range c Hc) as Hd.
    cbn [fold_left length]. rewrite Nat2Z.inj_succ, Z.pow_succ_r by lia.
    specialize (IH (16 * acc + hex_digit_value c) Hs ltac:(lia)).
    assert (0 < 16 ^ Z.of_nat (length s)) by (apply Z.pow_pos_nonneg; lia).
    nia.
Qed.

Lemma hex_value_uint32 (s : list ascii) :
  (length s <= 8)%nat -> forallb hex_digit s = true -> is_uint32 (hex_value s).
Proof.
  intros Hlen Hs. unfold is_uint32, hex_value.
  pose proof (hex_fold_bound s 0 Hs ltac:(lia)) as [H0 H1].
  split; [exact H0 |]. eapply Z.lt_le_trans; [exact H1 |].
  change (2 ^ 32) with (16 ^ 8). rewrite Z.mul_1_l.
  apply Z.pow_le_mono_r; lia.
Qed.

(** ** The main loop *)

Section MainFacts.

Variable strtoul : list ascii -> Z -> Z.
Hypothesis strtoul_hex_digits : parses_hex strtoul.

Lemma convertToNumber_hex (data : list ascii) :
  (1 <= length (cstring data) <= 8)%nat ->
  forallb hex_digit (cstring data) = true ->
  convertToNumber strtoul data = hex_value (cstring data).
Proof.
  intros Hlen Hhex. unfold convertToNumber.
  rewrite strtoul_hex_digits by assumption.
  apply uint32_small. apply hex_value_uint32; [lia | exact Hhex].
Qed.

Lemma main_report_hex (data : list ascii) :
  (1 <= length (cstring data) <= 8)%nat ->
  forallb hex_digit (cstring data) = true ->
  main_report strtoul data
  = let r := decode (hex_value (cstring data)) in
    [ReceivedData (cstring data); DataAfterConvertion (hex_value (cstring data));
     TemperatureIs (temperature r); PressureIs (pressure r);
     HumidityIs (humidity r); FluidLevelIs (fluidLevel r)]
    ++ map Said (Spec.evaluate r).
Proof.
  intros Hlen Hhex. unfold main_report.
  rewrite convertToNumber_hex by assumption.
  cbv zeta. rewrite alarm_report. reflexivity.
Qed.

Lemma respond_accepted (l data : list ascii) :
  text_line l -> accepted l -> cstring data = normalized l ->
  respond l = Said Prompt :: main_report strtoul data.
Proof.
  intros Htext [Hne Hhex] Hstr. unfold respond, hex_line.
  destruct l as [| c l]; [contradiction |]. rewrite Hhex.
  rewrite main_report_hex; rewrite Hstr.
  - reflexivity.
  - unfold normalized. rewrite length_map, length_take. cbn [length].
    unfold MAX_HEX_DIGITS. lia.
  - exact Hhex.
Qed.

Section Lines.

(** What follows the lines on standard input, and how a pass that starts
    there ends the program, given all that was printed before. *)
Variable tailin : list ascii.
Variable finish : list report_line -> main_result.
Hypothesis last_pass :
  forall (buf : list ascii) (out : list report_line) (p : list message)
         (fe fm : nat),
    length buf = HEX_INPUT_BUFFER_SIZE -> (0 < fe)%nat ->
    match enterData fe buf MAX_HEX_DIGITS HEX_INPUT_BUFFER_SIZE
                    (mkIO tailin p) with
    | Returned d w =>
      main_loop strtoul fm d (pending w)
                (out ++ map Said (printed w) ++ main_report strtoul d)
    | Exited status w => MainExited status (pending w) (out ++ map Said (printed w))
    | Diverged => MainDiverged
    | OutOfFuel => MainOutOfFuel
    end
    = finish (out ++ map Said p).

Lemma main_lines_aux (ls : list (list ascii)) :
  forall (buf : list ascii) (out : list report_line) (p : list message)
         (fe fm : nat),
    Forall (fun l => text_line l /\ map toupper l <> END_token) ls ->
    length buf = HEX_INPUT_BUFFER_SIZE ->
    (length ls < fe)%nat -> (length ls <= fm)%nat ->
    match enterData fe buf MAX_HEX_DIGITS HEX_INPUT_BUFFER_SIZE
                    (mkIO (typed ls ++ tailin) p) with
    | Returned d w =>
      main_loop strtoul fm d (pending w)
                (out ++ map Said (printed w) ++ main_report strtoul d)
    | Exited status w => MainExited status (pending w) (out ++ map Said (printed w))
    | Diverged => MainDiverged
    | OutOfFuel => MainOutOfFuel
    end
    = finish (out ++ map Said p ++ flat_map respond ls).
Proof.
  induction ls as [| l ls IH]; intros buf out p fe fm Hls Hbuf Hfe Hfm.
  - cbn [typed flat_map app]. rewrite app_nil_r. now apply last_pass.
  - destruct fe as [| fe]; [cbn [length] in Hfe; lia |]. cbn [enterData].
    inversion Hls as [| ? ? [Htext Hnot] Hls']; subst.
    cbn [typed flat_map length] in Hfe, Hfm |- *. fold (typed ls).
    rewrite <- !app_assoc. cbn [app].
    destruct (hex_line l) eqn:Hhex.
    + assert (Hacc : accepted l).
      { unfold hex_line in Hhex. destruct l; [discriminate Hhex |].
        split; [discriminate | exact Hhex]. }
      destruct (enterData_body_accepted l (typed ls ++ tailin) buf p
                  Htext Hacc Hbuf) as (data & Hdata & Hstr & Hpass).
      rewrite Hpass. cbn [pending printed].
      destruct fm as [| fm]; [lia |]. cbn [main_loop].
      rewrite (IH data _ [] (S fm) fm Hls' Hdata ltac:(lia) ltac:(lia)).
      f_equal. rewrite (respond_accepted l data Htext Hacc Hstr).
      rewrite map_app. cbn [map app]. rewrite <- !app_assoc. cbn [app].
      reflexivity.
    + assert (Hrej : rejected l).
      { unfold hex_line in Hhex. destruct l; [left; reflexivity |].
        right. split; [exact Hhex | exact Hnot]. }
      destruct (enterData_body_rejected l (typed ls ++ tailin) buf p
                  Htext Hrej Hbuf) as (buf' & Hbuf' & Hpass).
      rewrite Hpass.
      rewrite (IH buf' out (p ++ rejection l) fe fm Hls' Hbuf' ltac:(lia) ltac:(lia)).
      f_equal. unfold respond. rewrite Hhex.
      rewrite map_app, <- !app_assoc. reflexivity.
Qed.

Lemma main_lines (ls : list (list ascii)) (fuel : nat) :
  Forall (fun l => text_line l /\ map toupper l <> END_token) ls ->
  (length ls < fuel)%nat ->
  main strtoul fuel (typed ls ++ tailin) = finish (flat_map respond ls).
Proof.
  intros Hls Hfuel. unfold main.
  destruct fuel as [| fuel]; [lia |]. cbn [main_loop].
  now rewrite (main_lines_aux ls (repeat NUL HEX_INPUT_BUFFER_SIZE) [] []
                 (S fuel) fuel Hls eq_refl ltac:(lia) ltac:(lia)).
Qed.

End Lines.

End MainFacts.

Lemma strtoul_hex_parses : parses_hex strtoul_hex.
Proof. intros nptr _ _. reflexivity. Qed.

(** X11. On every buffer the input loop hands back, [convertToNumber] yields
    the number its digits read as in base 16, and that number is below 2^32:
    the conversion of the [strtoul] result to [uint32_t] never cuts
    anything off. *)
Theorem convertToNumber_exact
    (strtoul : list ascii -> Z -> Z) (fuel : nat) (buf data : list ascii) (w w' : io) :
  parses_hex strtoul ->
  length buf = HEX_INPUT_BUFFER_SIZE ->
  enterData fuel buf MAX_HEX_DIGITS HEX_INPUT_BUFFER_SIZE w = Returned data w' ->
  convertToNumber strtoul data = hex_value (cstring data) /\
  is_uint32 (hex_value (cstring data)).
Proof.
  intros Hstr Hbuf Hrun.
  destruct (enterData_returns_hex fuel buf w data w' Hbuf Hrun) as [Hlen Hhex].
  unfold MAX_HEX_DIGITS in Hlen. split.
  - now apply convertToNumber_hex.
  - apply hex_value_uint32; [lia | exact Hhex].
Qed.

Lemma convertToNumber_exact_witness :
  convertToNumber strtoul_hex
    (["F"; "F"; "F"; "F"; "F"; "F"; "F"; "F"]%char ++ [NUL])
  = 4294967295.
Proof.
  destruct (convertToNumber_exact strtoul_hex 1 (repeat NUL 9)
              (["F"; "F"; "F"; "F"; "F"; "F"; "F"; "F"]%char ++ [NUL])
              (mkIO (["f"; "f"; "f"; "f"; "f"; "f"; "f"; "f"; "f"]%char ++ [LF]) [])
              (mkIO [] [Prompt])
              strtoul_hex_parses eq_refl eq_refl) as [H _].
  rewrite H. reflexivity.
Defined.

(** X12. A whole session. Given any lines of text none of which reads END,
    followed by a line that does, the program answers the lines in order
    (an empty line with the empty-data message, a line of hexadecimal
    digits with the received string, its value, the four decoded fields and
    their alarms, any other line with the wrong-data message, each after a
    prompt), then prints the closing line and exits with status 0, leaving
    the input after the END line unread. What an earlier line left in the
    buffer never shows in a later answer. *)
Theorem main_session
    (strtoul : list ascii -> Z -> Z) (ls : list (list ascii))
    (quit rest : list ascii) (fuel : nat) :
  parses_hex strtoul ->
  Forall (fun l => text_line l /\ map toupper l <> END_token) ls ->
  text_line quit -> map toupper quit = END_token ->
  (length ls < fuel)%nat ->
  main strtoul fuel (typed ls ++ quit ++ LF :: rest)
  = MainExited 0 rest (flat_map respond ls ++ [Said Prompt; Said Closing]).
Proof.
  intros Hstr Hls Hquit_text Hquit Hfuel.
  apply (main_lines strtoul Hstr (quit ++ LF :: rest)
           (fun total => MainExited 0 rest (total ++ [Said Prompt; Said Closing])));
    [| exact Hls | exact Hfuel].
  intros buf out p fe fm Hbuf Hfe. destruct fe as [| fe]; [lia |].
  cbn [enterData].
  rewrite (enterData_body_quit quit rest buf p Hquit_text Hquit Hbuf).
  cbn [pending printed]. now rewrite map_app, <- app_assoc.
Qed.

Lemma main_session_witness :
  main strtoul_hex 4
       (typed [["1"; "8"]%char; []; ["x"]%char] ++ ["e"; "n"; "d"]%char ++ LF :: ["7"]%char)
  = MainExited 0 ["7"]%char
      (flat_map respond [["1"; "8"]%char; []; ["x"]%char] ++ [Said Prompt; Said Closing]).
Proof.
  apply (main_session strtoul_hex [["1"; "8"]%char; []; ["x"]%char]
           ["e"; "n"; "d"]%char ["7"]%char 4 strtoul_hex_parses).
  - repeat (constructor; [split; [split; not_in_literal | discriminate] |]).
    constructor.
  - split; not_in_literal.
  - reflexivity.
  - cbn [length]. lia.
Defined.

(** X13. The program ends only through END. When the input runs out
    instead (lines of text none of which reads END, then no further
    newline), the program answers the lines and then hangs waiting in the
    line reader: it never exits. *)
Theorem main_hangs_without_END
    (strtoul : list ascii -> Z -> Z) (ls : list (list ascii))
    (tailin : list ascii) (fuel : nat) :
  parses_hex strtoul ->
  Forall (fun l => text_line l /\ map toupper l <> END_token) ls ->
  ~ In LF tailin -> (length ls < fuel)%nat ->
  main strtoul fuel (typed ls ++ tailin) = MainDiverged.
Proof.
  intros Hstr Hls Htail Hfuel.
  apply (main_lines strtoul Hstr tailin (fun _ => MainDiverged));
    [| exact Hls | exact Hfuel].
  intros buf out p fe fm Hbuf Hfe. destruct fe as [| fe]; [lia |].
  cbn [enterData]. unfold enterData_body. cbn [pending].
  assert (Hsize : (0 < HEX_INPUT_BUFFER_SIZE)%nat)
    by (unfold HEX_INPUT_BUFFER_SIZE; lia).
  destruct (getBuffer_returns_newline_aux buf tailin HEX_INPUT_BUFFER_SIZE Hsize)
    as [[_ Hnone] _].
  now rewrite (Hnone Htail).
Qed.

Lemma main_hangs_without_END_witness :
  main strtoul_hex 3 (typed [["1"; "8"]%char; ["x"]%char] ++ ["E"; "N"; "D"]%char)
  = MainDiverged.
Proof.
  apply (main_hangs_without_END strtoul_hex [["1"; "8"]%char; ["x"]%char]
           ["E"; "N"; "D"]%char 3 strtoul_hex_parses).
  - repeat (constructor; [split; [split; not_in_literal | discriminate] |]).
    constructor.
  - not_in_literal.
  - cbn [length]. lia.
Defined.

(** ** The binary printer *)

Lemma printf_d_bit (x k : Z) (stdout : list ascii) :
  0 <= k ->
  printf_d (Z.land (Z.shiftr x k) LAST_BIT) stdout
  = stdout ++ [if Z.testbit x k then "1" else "0"]%char.
Proof.
  intros Hk. change LAST_BIT with (Z.ones 1). rewrite Z.land_ones by lia.
  rewrite Z.shiftr_div_pow2 by exact Hk. change (2 ^ 1) with 2.
  rewrite <- Z.testbit_spec' by exact Hk.
  destruct (Z.testbit x k); reflexivity.
Qed.

Lemma print_in_binary_loop_bits (number totalBits : Z) (n : nat) :
  forall (i : Z) (stdout : list ascii),
    0 <= i -> totalBits - i = Z.of_nat n ->
    print_in_binary_loop n i totalBits number stdout
    = stdout ++ bits_msb n number.
Proof.
  induction n as [| n IH]; intros i stdout Hi Hn.
  - cbn. now rewrite app_nil_r.
  - cbn [print_in_binary_loop bits_msb].
    replace (totalBits - 1 - i) with (Z.of_nat n) by lia.
    rewrite printf_d_bit by lia. rewrite IH by lia.
    now rewrite <- app_assoc.
Qed.

Lemma bits_msb_fold (x : Z) (n : nat) :
  forall acc,
    fold_left (fun a c => 2 * a + (if Ascii.eqb c "1" then 1 else 0))
              (bits_msb n x) acc
    = acc * 2 ^ Z.of_nat n + x mod 2 ^ Z.of_nat n.
Proof.
  induction n as [| n IH]; intros acc.
  - cbn [bits_msb fold_left]. change (2 ^ Z.of_nat 0) with 1.
    rewrite Z.mod_1_r. lia.
  - cbn [bits_msb fold_left]. rewrite IH.
    rewrite Nat2Z.inj_succ, Z.pow_succ_r by lia.
    assert (Hp : 0 < 2 ^ Z.of_nat n) by (apply Z.pow_pos_nonneg; lia).
    rewrite (Z.mul_comm 2 (2 ^ Z.of_nat n)).
    rewrite (Z.rem_mul_r x (2 ^ Z.of_nat n) 2) by lia.
    rewrite <- Z.testbit_spec' by lia.
    destruct (Z.testbit x (Z.of_nat n)); cbn [Z.b2z].
    + change (Ascii.eqb "1" "1") with true. cbv iota. ring.
    + change (Ascii.eqb "0" "1") with false. cbv iota. ring.
Qed.

Lemma bits_msb_digits (x : Z) (n : nat) :
  length (bits_msb n x) = n /\
  Forall (fun c => c = "0"%char \/ c = "1"%char) (bits_msb n x).
Proof.
  induction n as [| n [IHl IHd]]; cbn [bits_msb length].
  - split; [reflexivity | constructor].
  - split; [now rewrite IHl |]. constructor; [| exact IHd].
    destruct (Z.testbit x (Z.of_nat n)); [right | left]; reflexivity.
Qed.

(** X14. [print_in_binary] appends to the output 16 characters, each 0 or
    1, and a newline; read as a binary number, most significant digit
    first, the 16 characters give back the number that was printed. *)
Theorem print_in_binary_roundtrip (number : Z) (stdout : list ascii) :
  is_uint16 number ->
  exists digits,
    print_in_binary number stdout = stdout ++ digits ++ [LF] /\
    length digits = 16%nat /\
    Forall (fun c => c = "0"%char \/ c = "1"%char) digits /\
    binary_value digits = number.
Proof.
  intros Hrange. exists (bits_msb 16 number).
  destruct (bits_msb_digits number 16) as [Hlen Hdigits].
  split; [| split; [exact Hlen | split; [exact Hdigits |]]].
  - unfold print_in_binary, putchar.
    change (int32 (sizeof_selectedNumberFormat * BITS_IN_BYTE)) with 16.
    change (Z.to_nat 16) with 16%nat.
    rewrite (print_in_binary_loop_bits number 16 16 0 stdout) by lia.
    now rewrite <- app_assoc.
  - unfold binary_value. rewrite bits_msb_fold.
    change (2 ^ Z.of_nat 16) with (2 ^ 16).
    rewrite Z.mod_small by exact Hrange. lia.
Qed.

Lemma print_in_binary_roundtrip_witness :
  exists digits,
    print_in_binary 2137 [] = [] ++ digits ++ [LF] /\
    length digits = 16%nat /\
    Forall (fun c => c = "0"%char \/ c = "1"%char) digits /\
    binary_value digits = 2137.
Proof.
  apply (print_in_binary_roundtrip 2137 []). unfold is_uint16. lia.
Defined.

(** ** More on the codec *)

(** X15. The decoded values lie in the ranges the header comment of the
    program gives: temperature -20..235, pressure 1010..1137, humidity
    0..15, fluid level 0..8191. Every combination of values in these ranges
    is the decoding of some 32-bit word, and two different words never
    decode to the same reading. *)
Theorem decode_ranges_bijection :
  (forall raw,
      is_uint32 raw ->
      -20 <= temperature (decode raw) <= 235 /\
      1010 <= pressure (decode raw) <= 1137 /\
      0 <= humidity (decode raw) <= 15 /\
      0 <= fluidLevel (decode raw) <= 8191) /\
  (forall t p h f,
      -20 <= t <= 235 -> 1010 <= p <= 1137 -> 0 <= h <= 15 -> 0 <= f <= 8191 ->
      exists raw, is_uint32 raw /\ decode raw = mkReading t p h f) /\
  (forall raw1 raw2,
      is_uint32 raw1 -> is_uint32 raw2 -> decode raw1 = decode raw2 ->
      raw1 = raw2).
Proof.
  split; [| split].
  - intros raw Hraw. unfold decode; cbn [temperature pressure humidity fluidLevel].
    rewrite getTemperature_eq, getPressure_eq, getHumidity_eq, getFluidLevel_eq
      by exact Hraw.
    pose proof (Z.mod_pos_bound raw 256 ltac:(lia)).
    pose proof (Z.mod_pos_bound (raw / 2 ^ 8) (2 ^ 7) ltac:(lia)).
    pose proof (Z.mod_pos_bound (raw / 2 ^ 15) (2 ^ 4) ltac:(lia)).
    pose proof (fluid_bound raw Hraw). lia.
  - intros t p h f Ht Hp Hh Hf. exists (pack (t + 20) (p - 1010) h f). split.
    + apply pack_range; lia.
    + rewrite decode_pack by lia. f_equal; lia.
  - intros raw1 raw2 H1 H2 E.
    rewrite <- (pack_decode raw1 H1), <- (pack_decode raw2 H2). now rewrite E.
Qed.

Lemma decode_ranges_bijection_witness :
  (exists raw, is_uint32 raw /\ decode raw = mkReading 235 1137 15 8191) /\
  (decode 7 = decode 7 -> 7 = 7).
Proof.
  destruct decode_ranges_bijection as (_ & Honto & Hinj). split.
  - apply (Honto 235 1137 15 8191); lia.
  - apply (Hinj 7 7); unfold is_uint32; lia.
Defined.

Lemma land_byte_range (a m : Z) :
  0 <= a -> 0 <= m < 256 -> 0 <= Z.land a m < 256.
Proof.
  intros Ha Hm. split; [apply Z.land_nonneg; now left |].
  assert (E : Z.land a m = Z.land (Z.land a m) (Z.ones 8)).
  { rewrite <- Z.land_assoc. f_equal. rewrite Z.land_ones by lia.
    symmetry. apply Z.mod_small. exact Hm. }
  rewrite E, Z.land_ones by lia. apply Z.mod_pos_bound. lia.
Qed.

(** X16. The getters with any mask and shift their parameter types allow
    (a mask below 256, a shift below 32): no conversion inside
    [getTemperature], [getPressure] and [getHumidity] changes a value, so
    they return (raw & mask) - 20, ((raw >> shift) & mask) + 1010 and
    (raw >> shift) & mask. [getFluidLevel] keeps the low 16 bits of
    raw >> shift, which is all of it when the shift is at least 16. *)
Theorem getters_any_mask_shift (raw mask shift : Z) :
  is_uint32 raw -> 0 <= mask < 256 -> 0 <= shift < 32 ->
  getTemperature raw mask = Z.land raw mask - 20 /\
  getPressure raw mask shift = Z.land (Z.shiftr raw shift) mask + 1010 /\
  getHumidity raw mask shift = Z.land (Z.shiftr raw shift) mask /\
  getFluidLevel raw shift = Z.shiftr raw shift mod 2 ^ 16 /\
  (16 <= shift -> getFluidLevel raw shift = Z.shiftr raw shift).
Proof.
  intros Hraw Hm Hs.
  pose proof (shiftr_range raw Hraw shift ltac:(lia)) as Hsr.
  change (2 ^ 32) with 4294967296 in Hsr.
  pose proof (land_byte_range raw mask ltac:(unfold is_uint32 in Hraw; lia) Hm) as Ht.
  pose proof (land_byte_range (Z.shiftr raw shift) mask ltac:(lia) Hm) as Hf.
  unfold getTemperature, getPressure, getHumidity, getFluidLevel.
  rewrite (uint32_small (Z.shiftr raw shift)) by lia.
  rewrite (uint32_small (Z.land raw mask)) by lia.
  rewrite (uint32_small (Z.land (Z.shiftr raw shift) mask)) by lia.
  rewrite (int16_small (Z.land raw mask)) by lia.
  rewrite (int32_small (Z.land raw mask - 20)) by lia.
  rewrite (int16_small (Z.land raw mask - 20)) by lia.
  rewrite (int32_small (Z.land (Z.shiftr raw shift) mask)) by lia.
  rewrite (int32_small (Z.land (Z.shiftr raw shift) mask + 1010)) by lia.
  rewrite (uint16_small (Z.land (Z.shiftr raw shift) mask + 1010)) by lia.
  rewrite (uint8_small (Z.land (Z.shiftr raw shift) mask)) by lia.
  repeat split.
  intros H16. apply uint16_small. split; [lia |].
  rewrite Z.shiftr_div_pow2 by lia.
  assert (Hp : 2 ^ 16 <= 2 ^ shift) by (apply Z.pow_le_mono_r; lia).
  apply Z.div_lt_upper_bound; [lia |].
  unfold is_uint32 in Hraw. change (2 ^ 32) with (2 ^ 16 * 2 ^ 16) in Hraw.
  change 65536 with (2 ^ 16). nia.
Qed.

Lemma getters_any_mask_shift_witness :
  getFluidLevel 0xFFFFFFFF 4 = 0xFFFF /\ getPressure 0xFFFFFFFF 0xFF 31 = 1011.
Proof.
  destruct (getters_any_mask_shift 0xFFFFFFFF 0xFF 4) as (_ & _ & _ & Hf & _);
    [unfold is_uint32; lia | lia | lia |].
  destruct (getters_any_mask_shift 0xFFFFFFFF 0xFF 31) as (_ & Hp & _);
    [unfold is_uint32; lia | lia | lia |].
  split; [rewrite Hf | rewrite Hp]; reflexivity.
Defined.

(** ** More on the alarm evaluator *)

(** X17. [alarm] prints nothing exactly when every value is in its normal
    range: temperature above 4 and at most 100, pressure from 1013 to 1135,
    at most two of the low four humidity bits set, and a fluid level above
    0 and at most 8000. *)
Theorem alarm_silent_iff (t p h f : Z) (stdout : list message) :
  alarm t p h f stdout = stdout
  <-> 4 < t <= 100 /\ 1013 <= p <= 1135 /\ Spec.low4_set_bits h <= 2 /\
      0 < f <= 8000.
Proof.
  rewrite alarm_report.
  assert (Hnil : forall l : list message, stdout ++ l = stdout <-> l = []).
  { intros l. split; [| intros ->; apply app_nil_r].
    intros H. apply (app_inv_head stdout). now rewrite app_nil_r. }
  rewrite Hnil.
  unfold Spec.temperature_alarms, Spec.pressure_alarms,
    Spec.humidity_alarms, Spec.fluid_alarms, Spec.when.
  destruct (t <=? 4) eqn:Ht1; destruct (t >? 100) eqn:Ht2;
    destruct (p <? 1013) eqn:Hp1; destruct (p >? 1135) eqn:Hp2;
    destruct (Spec.low4_set_bits h >? 2) eqn:Hh;
    destruct (f <=? 0) eqn:Hf1; destruct (f >? 8000) eqn:Hf2;
    cbn [app]; split; intros H; try discriminate H; try lia; try reflexivity.
Qed.

(** X18. [alarm] prints at most one line per field, the "low" and "high"
    alarm of a field never both, so at most four lines in all, in field
    order. *)
Theorem alarm_one_line_per_field (t p h f : Z) :
  StronglySorted lt (map field_rank (alarm t p h f [])) /\
  (length (alarm t p h f []) <= 4)%nat.
Proof.
  rewrite alarm_report. cbn [app].
  unfold Spec.temperature_alarms, Spec.pressure_alarms,
    Spec.humidity_alarms, Spec.fluid_alarms, Spec.when.
  destruct (t <=? 4) eqn:Ht1; destruct (t >? 100) eqn:Ht2; try lia;
    destruct (p <? 1013) eqn:Hp1; destruct (p >? 1135) eqn:Hp2; try lia;
    destruct (Spec.low4_set_bits h >? 2);
    destruct (f <=? 0) eqn:Hf1; destruct (f >? 8000) eqn:Hf2; try lia;
    cbn [app map field_rank length];
    (split; [repeat (constructor; [| repeat constructor; lia]); constructor | lia]).
Qed.

Lemma raised_kinds (t p h f : Z) :
  raised TemperatureLow (alarm t p h f []) = (t <=? 4) /\
  raised TemperatureHigh (alarm t p h f []) = (t >? 100) /\
  raised PressureLow (alarm t p h f []) = (p <? 1013) /\
  raised PressureHigh (alarm t p h f []) = (p >? 1135) /\
  raised HumidityOutOfRange (alarm t p h f []) = (Spec.low4_set_bits h >? 2) /\
  raised TankEmpty (alarm t p h f []) = (f <=? 0) /\
  raised TankOverflow (alarm t p h f []) = (f >? 8000).
Proof.
  rewrite !raised_report.
  unfold Spec.temperature_alarms, Spec.pressure_alarms,
    Spec.humidity_alarms, Spec.fluid_alarms, Spec.when.
  destruct (t <=? 4); destruct (t >? 100); destruct (p <? 1013);
    destruct (p >? 1135); destruct (Spec.low4_set_bits h >? 2);
    destruct (f <=? 0); destruct (f >? 8000); repeat split.
Qed.

Lemma nibble_range (raw : Z) : 0 <= Z.land (Z.shiftr raw 15) 0xF < 16.
Proof.
  pose proof (field_range raw 15 4 ltac:(lia) ltac:(lia)) as H. exact H.
Qed.

(** X19. Decoding and evaluating together, in terms of the raw word: the
    temperature alarms are raised exactly when the low byte is at most 24
    (low) or above 120 (high), the pressure alarms exactly when the 7-bit
    pressure field is below 3 (low) or above 125 (high), the humidity alarm
    exactly when more than two of bits 15..18 are set, tank-empty exactly
    when the word is below 2^19, and overflow exactly when the top 13 bits
    exceed 8000. *)
Theorem alarms_of_raw_word (raw : Z) :
  is_uint32 raw ->
  let report := alarm_of (decode raw) [] in
  (raised TemperatureLow report = true <-> Z.land raw 0xFF <= 24) /\
  (raised TemperatureHigh report = true <-> Z.land raw 0xFF > 120) /\
  (raised PressureLow report = true <-> Z.land (Z.shiftr raw 8) 0x7F < 3) /\
  (raised PressureHigh report = true <-> Z.land (Z.shiftr raw 8) 0x7F > 125) /\
  (raised HumidityOutOfRange report = true
   <-> 2 < Spec.popcount (Z.land (Z.shiftr raw 15) 0xF)) /\
  (raised TankEmpty report = true <-> raw < 2 ^ 19) /\
  (raised TankOverflow report = true <-> Z.shiftr raw 19 > 8000).
Proof.
  intros Hraw report. subst report. unfold alarm_of.
  pose proof (nibble_range raw) as Hh.
  pose proof (fluid_bound raw Hraw) as Hf.
  rewrite (decode_masked raw Hraw). cbn [temperature pressure humidity fluidLevel].
  destruct (raised_kinds (Z.land raw 0xFF - 20) (Z.land (Z.shiftr raw 8) 0x7F + 1010)
              (Z.land (Z.shiftr raw 15) 0xF) (Z.land (Z.shiftr raw 19) 0x1FFF))
    as (E1 & E2 & E3 & E4 & E5 & E6 & E7).
  rewrite E1, E2, E3, E4, E5, E6, E7.
  rewrite (low4_popcount _ Hh).
  assert (Efl : Z.land (Z.shiftr raw 19) 0x1FFF = raw / 2 ^ 19).
  { change 0x1FFF with (Z.ones 13). rewrite field_mod by lia.
    apply Z.mod_small. exact Hf. }
  rewrite Efl, (Z.shiftr_div_pow2 raw 19) by lia.
  assert (Hz : raw / 2 ^ 19 <= 0 <-> raw < 2 ^ 19).
  { unfold is_uint32 in Hraw. split; intros H.
    - apply Z.nle_gt. intros Hge.
      assert (1 <= raw / 2 ^ 19) by (apply Z.div_le_lower_bound; lia). lia.
    - rewrite Z.div_small by lia. lia. }
  repeat split; intros H; try lia.
Qed.

Lemma alarms_of_raw_word_witness :
  raised TemperatureLow (alarm_of (decode 0x00080018) []) = true /\
  raised TankEmpty (alarm_of (decode 0x00080018) []) = false.
Proof.
  assert (Hraw : is_uint32 0x00080018) by (unfold is_uint32; lia).
  pose proof (alarms_of_raw_word 0x00080018 Hraw) as (Ht & _ & _ & _ & _ & He & _).
  split; [apply Ht; vm_compute; discriminate |].
  destruct (raised TankEmpty (alarm_of (decode 0x00080018) [])) eqn:E; [| reflexivity].
  exfalso. assert (0x00080018 < 2 ^ 19) by (apply He; reflexivity). lia.
Defined.

Lemma count_bits_div2 (n : nat) :
  forall i h, 0 <= i ->
    Spec.count_bits n (i + 1) h = Spec.count_bits n i (Z.div2 h).
Proof.
  induction n as [| n IH]; intros i h Hi; cbn [Spec.count_bits]; [reflexivity |].
  rewrite IH by lia. f_equal. f_equal.
  rewrite Z.div2_spec, Z.shiftr_spec by exact Hi. reflexivity.
Qed.

Lemma popcount_div2 (h : Z) :
  0 <= h -> Spec.popcount h = Z.b2z (Z.odd h) + Spec.popcount (Z.div2 h).
Proof.
  intros Hh. destruct h as [| p | p]; [reflexivity | | lia].
  destruct p; cbn; lia.
Qed.

Lemma count_bits_popcount (n : nat) :
  forall h, 0 <= h < 2 ^ Z.of_nat n -> Spec.count_bits n 0 h = Spec.popcount h.
Proof.
  induction n as [| n IH]; intros h Hh.
  - change (2 ^ Z.of_nat 0) with 1 in Hh. assert (h = 0) by lia. now subst h.
  - cbn [Spec.count_bits]. change (0 + 1) with (0 + 1).
    rewrite count_bits_div2 by lia. rewrite Z.bit0_odd.
    rewrite popcount_div2 by lia. f_equal. apply IH.
    rewrite Nat2Z.inj_succ, Z.pow_succ_r in Hh by lia.
    rewrite Z.div2_div. split.
    + apply Z.div_pos; lia.
    + apply Z.div_lt_upper_bound; lia.
Qed.

(** X20. [countHumidityBits] with any number of examined bits up to 32:
    its counter ends at the number of set bits among the examined ones,
    and what it returns is 1 when that number exceeds 2 and 0 otherwise,
    never the count itself. Examining 8 bits or more of a byte counts all
    its set bits. *)
Theorem countHumidityBits_any_width (bitsToBeCounted checkedBits : Z) :
  0 <= bitsToBeCounted < 256 -> 0 <= checkedBits <= 32 ->
  countHumidityBits_counter bitsToBeCounted checkedBits
  = Spec.count_bits (Z.to_nat checkedBits) 0 bitsToBeCounted /\
  countHumidityBits bitsToBeCounted checkedBits
  = (if Spec.count_bits (Z.to_nat checkedBits) 0 bitsToBeCounted >? 2
     then 1 else 0) /\
  (8 <= checkedBits ->
   countHumidityBits_counter bitsToBeCounted checkedBits
   = Spec.popcount bitsToBeCounted).
Proof.
  intros Hb Hc.
  assert (E : countHumidityBits_counter bitsToBeCounted checkedBits
              = Spec.count_bits (Z.to_nat checkedBits) 0 bitsToBeCounted).
  { unfold countHumidityBits_counter.
    rewrite countHumidityBits_loop_count by lia. lia. }
  split; [exact E |]. split.
  - unfold countHumidityBits. now rewrite E.
  - intros H8. rewrite E. apply count_bits_popcount.
    rewrite Z2Nat.id by lia. split; [lia |].
    apply Z.lt_le_trans with (2 ^ 8); [lia |]. apply Z.pow_le_mono_r; lia.
Qed.

Lemma countHumidityBits_any_width_witness :
  countHumidityBits_counter 0xF7 8 = 7 /\ countHumidityBits 0xF7 8 = 1.
Proof.
  destruct (countHumidityBits_any_width 0xF7 8) as (_ & Hret & Hpop); [lia | lia |].
  split; [rewrite Hpop by lia | rewrite Hret]; reflexivity.
Defined.

(** ** Standard output only grows *)

Lemma enterData_body_frame (buf stdin : list ascii) (max_size table_size : nat)
    (out : list message) :
  enterData_body buf max_size table_size (mkIO stdin out)
  = match enterData_body buf max_size table_size (mkIO stdin []) with
    | Continue d w => Continue d (mkIO (pending w) (out ++ printed w))
    | Break d w => Break d (mkIO (pending w) (out ++ printed w))
    | Exit status w => Exit status (mkIO (pending w) (out ++ printed w))
    | Hang => Hang
    end.
Proof.
  unfold enterData_body, printf. cbn [pending printed app].
  destruct (getBuffer buf table_size stdin) as [[stored stdin'] |]; [| reflexivity].
  repeat match goal with
         | |- context [if ?b then _ else _] => destruct b
         end; cbn [pending printed]; rewrite <- ?app_assoc; reflexivity.
Qed.

Lemma printed_after_app (a b : list message) (r : result) :
  printed_after (a ++ b) r = printed_after a (printed_after b r).
Proof. destruct r; cbn [printed_after pending printed]; now rewrite <- ?app_assoc. Qed.

Lemma enterData_frame (fuel : nat) :
  forall (buf stdin : list ascii) (max_size table_size : nat) (out : list message),
    enterData fuel buf max_size table_size (mkIO stdin out)
    = printed_after out (enterData fuel buf max_size table_size (mkIO stdin [])).
Proof.
  induction fuel as [| fuel IH]; intros buf stdin max_size table_size out;
    [reflexivity |].
  cbn [enterData]. rewrite enterData_body_frame.
  destruct (enterData_body buf max_size table_size (mkIO stdin []))
    as [d [s1 p1] | d [s1 p1] | st [s1 p1] |]; cbn [pending printed];
    try reflexivity.
  rewrite (IH d s1 max_size table_size (out ++ p1)).
  rewrite (IH d s1 max_size table_size p1).
  apply printed_after_app.
Qed.

(** X21. The input loop and the alarm evaluator only append to standard
    output: run after any earlier output, [enterData] ends as it does on an
    empty output (same buffer, same exit status, same input left), with the
    earlier output kept in front of what it prints, and so does [alarm]. *)
Theorem output_only_grows
    (fuel : nat) (buf stdin : list ascii) (max_size table_size : nat)
    (t p h f : Z) (out : list message) :
  enterData fuel buf max_size table_size (mkIO stdin out)
  = printed_after out (enterData fuel buf max_size table_size (mkIO stdin [])) /\
  alarm t p h f out = out ++ alarm t p h f [].
Proof.
  split; [apply enterData_frame |].
  now rewrite (alarm_report t p h f out), (alarm_report t p h f []).
Qed.
